(** * node-winreg: lib/registry.js

    A shallow embedding of the REG command wrapper of node-winreg
    (lib/registry.js): the [Registry] constructor with its [path] and
    [parent] accessors, the three regular expressions of the module, the
    'close' / 'end' handlers that parse the captured output of REG, and the
    argument vectors handed to [spawn].

    JavaScript strings are sequences of UTF-16 code units; they are modelled
    as lists of code units.  Code that may throw lives in a small error
    monad.  The asynchronous part is modelled by what the source computes at
    each event: the synchronous part of a method returns the argument vector
    it spawns REG with (or throws), and each event handler is a function of
    the exit code and of the buffered stdout text, returning the arguments
    it calls the callback with. *)

From Stdlib Require Import ZArith NArith List Bool String Ascii Lia DecimalPos.
Import ListNotations.

(** ** Strings *)

Definition char := N.
Definition str := list char.

Definition lit (s : string) : str :=
  map N_of_ascii (list_ascii_of_string s).

Definition chr (a : ascii) : char := N_of_ascii a.

Definition char_eqb (a b : char) : bool := N.eqb a b.

Fixpoint str_eqb (a b : str) : bool :=
  match a, b with
  | [], [] => true
  | x :: a', y :: b' => char_eqb x y && str_eqb a' b'
  | _, _ => false
  end.

Definition in_range (lo hi c : char) : bool := (N.leb lo c && N.leb c hi)%bool.

Local Open Scope N_scope.

(** WhiteSpace and LineTerminator of ECMAScript: what [\s] matches and what
    [String.prototype.trim] strips. *)
Definition is_line_terminator (c : char) : bool :=
  existsb (char_eqb c) [10; 13; 8232; 8233].

Definition is_space (c : char) : bool :=
  (existsb (char_eqb c) [9; 11; 12; 32; 160; 5760; 8239; 8287; 12288; 65279]
   || in_range 8192 8202 c
   || is_line_terminator c)%bool.

Local Close Scope N_scope.

Fixpoint drop_while (p : char -> bool) (s : str) : str :=
  match s with
  | [] => []
  | c :: s' => if p c then drop_while p s' else s
  end.

(** [s.trim()] *)
Definition trim (s : str) : str :=
  rev (drop_while is_space (rev (drop_while is_space s))).

(** [s.split(sep)] for a separator of one code unit: never an empty array,
    [''.split(sep)] is [['']]. *)
Fixpoint split (sep : char) (s : str) : list str :=
  match s with
  | [] => [[]]
  | c :: s' =>
      if char_eqb c sep then [] :: split sep s'
      else match split sep s' with
           | [] => [[c]]
           | l :: ls => (c :: l) :: ls
           end
  end.

(** [a.indexOf(x)] on an array of strings, with strict equality; -1 when
    absent. *)
Fixpoint indexOf_from (i : Z) (a : list str) (x : str) : Z :=
  match a with
  | [] => (-1)%Z
  | y :: a' => if str_eqb y x then i else indexOf_from (i + 1)%Z a' x
  end.

Definition indexOf (a : list str) (x : str) : Z := indexOf_from 0%Z a x.

(** [s.lastIndexOf(c)] for a string of one code unit; -1 when absent. *)
Fixpoint lastIndexOf_from (i : Z) (last : Z) (s : str) (c : char) : Z :=
  match s with
  | [] => last
  | x :: s' =>
      lastIndexOf_from (i + 1)%Z (if char_eqb x c then i else last) s' c
  end.

Definition lastIndexOf (s : str) (c : char) : Z :=
  lastIndexOf_from 0%Z (-1)%Z s c.

(** [s.substring(0, i)] for [0 <= i]. *)
Definition substring0 (s : str) (i : Z) : str := firstn (Z.to_nat i) s.

(** Decimal numerals, for the string form of a number. *)
Fixpoint uint_chars (d : Decimal.uint) : str :=
  match d with
  | Decimal.Nil => []
  | Decimal.D0 d' => 48%N :: uint_chars d'
  | Decimal.D1 d' => 49%N :: uint_chars d'
  | Decimal.D2 d' => 50%N :: uint_chars d'
  | Decimal.D3 d' => 51%N :: uint_chars d'
  | Decimal.D4 d' => 52%N :: uint_chars d'
  | Decimal.D5 d' => 53%N :: uint_chars d'
  | Decimal.D6 d' => 54%N :: uint_chars d'
  | Decimal.D7 d' => 55%N :: uint_chars d'
  | Decimal.D8 d' => 56%N :: uint_chars d'
  | Decimal.D9 d' => 57%N :: uint_chars d'
  end.

Definition Z_to_str (z : Z) : str :=
  match z with
  | Z0 => lit "0"
  | Zpos p => uint_chars (Pos.to_uint p)
  | Zneg p => chr "-" :: uint_chars (Pos.to_uint p)
  end.

(** ** JavaScript values

    The values the constructor can receive as [options] or read from its
    fields.  A number is a safe integer ([Number.isSafeInteger]: below 2^53
    in magnitude, where a double holds the integer exactly and its string
    form is its decimal numeral) or NaN.  An array is an array of strings.
    An object other than an array is a plain object, modelled by the values
    of the three properties the constructor reads, [undefined] for an absent
    one. *)
Definition is_safe_integer (z : Z) : bool :=
  Z.ltb (Z.abs z) 9007199254740992.

Inductive jsval :=
| JUndefined
| JNull
| JBool (b : bool)
| JNum (z : Z) (safe : is_safe_integer z = true)
| JNaN
| JStr (s : str)
| JArr (items : list str)
| JObj (host hive key : jsval).

(** [a.join(',')] for an array of strings: the string form of the array. *)
Fixpoint join (a : list str) : str :=
  match a with
  | [] => []
  | [x] => x
  | x :: a' => x ++ chr "," :: join a'
  end.

(** ToBoolean *)
Definition truthy (v : jsval) : bool :=
  match v with
  | JUndefined | JNull | JNaN => false
  | JBool b => b
  | JNum z _ => negb (Z.eqb z 0)
  | JStr s => match s with [] => false | _ => true end
  | JArr _ => true
  | JObj _ _ _ => true
  end.

(** [a || b] *)
Definition js_or (a b : jsval) : jsval := if truthy a then a else b.

(** ['' + v] *)
Definition to_str (v : jsval) : str :=
  match v with
  | JUndefined => lit "undefined"
  | JNull => lit "null"
  | JBool true => lit "true"
  | JBool false => lit "false"
  | JNum z _ => Z_to_str z
  | JNaN => lit "NaN"
  | JStr s => s
  | JArr items => join items
  | JObj _ _ _ => lit "[object Object]"
  end.

(** Property reads [o.host], [o.hive], [o.key]; a primitive or an array has
    none of these properties. *)
Definition get_host (o : jsval) : jsval :=
  match o with JObj h _ _ => h | _ => JUndefined end.
Definition get_hive (o : jsval) : jsval :=
  match o with JObj _ v _ => v | _ => JUndefined end.
Definition get_key (o : jsval) : jsval :=
  match o with JObj _ _ k => k | _ => JUndefined end.

(** ** Exceptions *)

Inductive js_error :=
| Error (msg : str)
| TypeError (msg : str)
| ReferenceError (msg : str).

Inductive M (A : Type) : Type :=
| Ok (a : A)
| Throw (e : js_error).
Arguments Ok {A} a.
Arguments Throw {A} e.

Definition bind {A B} (x : M A) (f : A -> M B) : M B :=
  match x with
  | Ok a => f a
  | Throw e => Throw e
  end.

Notation "x <- c1 ;; c2" := (bind c1 (fun x => c2))
  (at level 61, c1 at next level, right associativity).

(** ** Regular expressions

    A backtracking matcher in continuation-passing style, as ECMAScript
    specifies [RegExp.prototype.exec]: alternatives are tried left to right,
    [*] is greedy and gives up an iteration that consumes nothing, a group
    records the text it matched, [^] and [$] match at the two ends of the
    input (no flag is used in the module).  The matcher is total: the loop of
    [*] runs at most once per remaining code unit, since every iteration must
    consume one; a larger bound changes nothing ([star_loop_bound] below). *)

Inductive regex :=
| Eps
| Bol
| Eol
| Cls (p : char -> bool)
| Seq (r1 r2 : regex)
| Alt (r1 r2 : regex)
| Star (r : regex)
| Group (i : nat) (r : regex).

Definition Plus (r : regex) : regex := Seq r (Star r).

Fixpoint Lit (s : str) : regex :=
  match s with
  | [] => Eps
  | c :: s' => Seq (Cls (char_eqb c)) (Lit s')
  end.

Fixpoint Alts (rs : list regex) (last : regex) : regex :=
  match rs with
  | [] => last
  | r :: rs' => Alt r (Alts rs' last)
  end.

(** The match array: index 0 is the whole match, index [i] the text of group
    [i], [None] for [undefined]. *)
Definition captures := list (option str).

Fixpoint upd (i : nat) (v : option str) (c : captures) : captures :=
  match i, c with
  | _, [] => []
  | 0, _ :: c' => v :: c'
  | S i', x :: c' => x :: upd i' v c'
  end.

Fixpoint groups (r : regex) : list nat :=
  match r with
  | Eps | Bol | Eol | Cls _ => []
  | Seq r1 r2 | Alt r1 r2 => groups r1 ++ groups r2
  | Star r1 => groups r1
  | Group i r1 => i :: groups r1
  end.

Definition clear (gs : list nat) (c : captures) : captures :=
  fold_left (fun c i => upd i None c) gs c.

Definition cont := nat -> str -> captures -> option captures.

(** The loop of [r*]: [mr] matches one iteration of [r], [gs] are the
    groups of [r], reset at the start of each iteration, [n] bounds the
    number of iterations. *)
Fixpoint star_loop (mr : cont -> cont) (gs : list nat) (k : cont) (n : nat)
  (pos : nat) (s : str) (c : captures) {struct n} : option captures :=
  match n with
  | 0 => k pos s c
  | S n' =>
      match
        mr (fun pos' s' c' =>
              if Nat.ltb pos pos' then star_loop mr gs k n' pos' s' c'
              else None)
          pos s (clear gs c)
      with
      | Some res => Some res
      | None => k pos s c
      end
  end.

Fixpoint m (r : regex) (k : cont) (pos : nat) (s : str) (c : captures)
  {struct r} : option captures :=
  match r with
  | Eps => k pos s c
  | Bol => if Nat.eqb pos 0 then k pos s c else None
  | Eol => match s with [] => k pos s c | _ :: _ => None end
  | Cls p =>
      match s with
      | x :: s' => if p x then k (S pos) s' c else None
      | [] => None
      end
  | Seq r1 r2 => m r1 (m r2 k) pos s c
  | Alt r1 r2 =>
      match m r1 k pos s c with
      | Some res => Some res
      | None => m r2 k pos s c
      end
  | Star r1 => star_loop (m r1) (groups r1) k (List.length s) pos s c
  | Group i r1 =>
      m r1 (fun pos' s' c' => k pos' s' (upd i (Some (firstn (pos' - pos) s)) c'))
        pos s c
  end.

Definition ngroups (r : regex) : nat := fold_right Nat.max 0 (groups r).

(** One attempt at index [pos], where [s] is the input from [pos] on. *)
Definition match_at (r : regex) (pos : nat) (s : str) : option captures :=
  m r (fun pos' _ c => Some (upd 0 (Some (firstn (pos' - pos) s)) c))
    pos s (repeat None (S (ngroups r))).

(** The search of [exec]: the first index, from [pos] up to the end of the
    input, at which the pattern matches. *)
Fixpoint search (r : regex) (pos : nat) (s : str) : option captures :=
  match match_at r pos s with
  | Some res => Some res
  | None =>
      match s with
      | [] => None
      | _ :: s' => search r (S pos) s'
      end
  end.

(** [r.exec(s)] and [r.test(s)] for a pattern without flags. *)
Definition exec (r : regex) (s : str) : option captures := search r 0 s.

Definition test (r : regex) (s : str) : bool :=
  match exec r s with Some _ => true | None => false end.

(** [match[i]] *)
Definition group (i : nat) (mt : captures) : option str :=
  nth i mt None.

(** ** The constants of the module *)

Definition HKLM := lit "HKLM".
Definition HKCU := lit "HKCU".
Definition HKCR := lit "HKCR".
Definition HKU := lit "HKU".
Definition HKCC := lit "HKCC".
Definition HIVES := [HKLM; HKCU; HKCR; HKU; HKCC].

Definition REG_SZ := lit "REG_SZ".
Definition REG_MULTI_SZ := lit "REG_MULTI_SZ".
Definition REG_EXPAND_SZ := lit "REG_EXPAND_SZ".
Definition REG_DWORD := lit "REG_DWORD".
Definition REG_QWORD := lit "REG_QWORD".
Definition REG_BINARY := lit "REG_BINARY".
Definition REG_NONE := lit "REG_NONE".
Definition REG_TYPES :=
  [REG_SZ; REG_MULTI_SZ; REG_EXPAND_SZ; REG_DWORD; REG_QWORD; REG_BINARY;
   REG_NONE].

Definition backslash : char := chr "\".

(** [[a-zA-Z0-9_\s]] *)
Definition key_char (c : char) : bool :=
  (in_range (chr "a") (chr "z") c || in_range (chr "A") (chr "Z") c
   || in_range (chr "0") (chr "9") c || char_eqb c (chr "_")
   || is_space c)%bool.

(** [[a-zA-Z0-9_\s\\-]] *)
Definition name_char (c : char) : bool :=
  (key_char c || char_eqb c backslash || char_eqb c (chr "-"))%bool.

(** [.] *)
Definition dot (c : char) : bool := negb (is_line_terminator c).

(** [[^\s]] *)
Definition not_space (c : char) : bool := negb (is_space c).

(** KEY_PATTERN: [(\\[a-zA-Z0-9_\s]+)*], with no anchor. *)
Definition KEY_PATTERN : regex :=
  Star (Group 1 (Seq (Cls (char_eqb backslash)) (Plus (Cls key_char)))).

Definition LONG_HIVES : list str :=
  [lit "HKEY_LOCAL_MACHINE"; lit "HKEY_CURRENT_USER"; lit "HKEY_CLASSES_ROOT";
   lit "HKEY_USERS"; lit "HKEY_CURRENT_CONFIG"].

(** PATH_PATTERN: [^], group 1 one of the five long hive names in the order
    of the source, group 2 [.*], then [$]. *)
Definition PATH_PATTERN : regex :=
  Seq Bol
    (Seq (Group 1
            (Alts (map Lit [lit "HKEY_LOCAL_MACHINE"; lit "HKEY_CURRENT_USER";
                            lit "HKEY_CLASSES_ROOT"; lit "HKEY_USERS"])
               (Lit (lit "HKEY_CURRENT_CONFIG"))))
       (Seq (Group 2 (Star (Cls dot))) Eol)).

(** ITEM_PATTERN: [^], group 1 [[a-zA-Z0-9_\s\\-]+], one [\s], group 2 one
    of the seven type names in the order of the source, [\s+], group 3
    [[^\s].*], then [$]. *)
Definition ITEM_PATTERN : regex :=
  Seq Bol
    (Seq (Group 1 (Plus (Cls name_char)))
       (Seq (Cls is_space)
          (Seq (Group 2
                  (Alts (map Lit [REG_SZ; REG_MULTI_SZ; REG_EXPAND_SZ;
                                  REG_DWORD; REG_QWORD; REG_BINARY])
                     (Lit REG_NONE)))
             (Seq (Plus (Cls is_space))
                (Seq (Group 3 (Seq (Cls not_space) (Star (Cls dot))))
                   Eol))))).

(** ** Registry *)

Record registry := { host : str; hive : str; key : str }.

Record registry_item := {
  item_host : str;
  item_hive : str;
  item_key : str;
  item_name : str;
  item_type : str;
  item_value : str
}.

Definition RegistryItem (host hive key name type value : str) : registry_item :=
  {| item_host := host; item_hive := hive; item_key := key;
     item_name := name; item_type := type; item_value := value |}.

(** [new Registry(options)]: the three private members are read with their
    defaults and turned into strings, then validated. *)
Definition Registry (options : jsval) : M registry :=
  let _options := js_or options (JObj JUndefined JUndefined JUndefined) in
  let _host := to_str (js_or (get_host _options) (JStr [])) in
  let _hive := to_str (js_or (get_hive _options) (JStr HKLM)) in
  let _key := to_str (js_or (get_key _options) (JStr [])) in
  if Z.eqb (indexOf HIVES _hive) (-1) then
    Throw (Error (lit "illegal hive specified."))
  else if negb (test KEY_PATTERN _key) then
    Throw (Error (lit "illegal key specified."))
  else Ok {| host := _host; hive := _hive; key := _key |}.

(** The options literal [{ host: h, hive: v, key: k }] of three strings. *)
Definition options_of (h v k : str) : jsval := JObj (JStr h) (JStr v) (JStr k).

(** The getter of [parent]. *)
Definition parent (r : registry) : M registry :=
  let i := lastIndexOf (key r) backslash in
  Registry (JObj (JStr (host r)) (JStr (hive r))
              (JStr (if Z.eqb i (-1) then [] else substring0 (key r) i))).

(** The argument vector REG is spawned with: the synchronous result of a
    method that did not throw. *)
Inductive spawned := Spawn (command : str) (args : list str).

(** One call of the callback: [cb(err, result)], [None] for [null]. *)
Inductive called (A : Type) := Cb (err : option js_error) (result : A).
Arguments Cb {A} err result.

Definition code_to_str (code : option Z) : str :=
  match code with
  | Some z => Z_to_str z
  | None => lit "null"
  end.

(** [new Error('process exited with code ' + code)] *)
Definition exit_error (code : option Z) : js_error :=
  Error (lit "process exited with code " ++ code_to_str code).

(** [code !== 0] *)
Definition nonzero (code : option Z) : bool :=
  match code with
  | Some z => negb (Z.eqb z 0)
  | None => true
  end.

Definition newline : char := 10%N.

(** The first loop of [values] and [get]: the lines are trimmed in place,
    the non-empty ones are numbered, and all but number 0 are pushed. *)
Definition push_numbered (st : list str * nat) (line : str) : list str * nat :=
  let '(items, lineNumber) := st in
  let l := trim line in
  if Nat.ltb 0 (List.length l) then
    ((if negb (Nat.eqb lineNumber 0) then items ++ [l] else items),
     S lineNumber)
  else (items, lineNumber).

Definition items_numbered (buffer : str) : list str :=
  fst (fold_left push_numbered (split newline buffer) ([], 0)).

(** The first loop of [keys]: every non-empty trimmed line is pushed. *)
Definition push_nonempty (items : list str) (line : str) : list str :=
  let l := trim line in
  if Nat.ltb 0 (List.length l) then items ++ [l] else items.

Definition items_all (buffer : str) : list str :=
  fold_left push_nonempty (split newline buffer) [].

(** [match[i].trim()]: a TypeError on [undefined]. *)
Definition group_trim (i : nat) (mt : captures) : M str :=
  match group i mt with
  | Some t => Ok (trim t)
  | None => Throw (TypeError (lit "Cannot read property 'trim' of undefined"))
  end.

(** [match[i]] stored in a field of strings.  Every group of ITEM_PATTERN
    takes part in every match ([exec_ITEM_PATTERN] below), so
    [undefined] does not occur; the model raises there. *)
Definition group_str (i : nat) (mt : captures) : M str :=
  match group i mt with
  | Some t => Ok t
  | None => Throw (TypeError (lit "undefined group"))
  end.

(** The body of [if (match) { ... }] in [values] and [get]. *)
Definition item_of_match (self : registry) (mt : captures) : M registry_item :=
  name <- group_trim 1 mt ;;
  type <- group_trim 2 mt ;;
  value <- group_str 3 mt ;;
  Ok (RegistryItem (host self) (hive self) (key self) name type value).

(** One turn of the second loop of [values]. *)
Definition values_item (self : registry) (result : list registry_item)
  (item : str) : M (list registry_item) :=
  match exec ITEM_PATTERN item with
  | Some mt => it <- item_of_match self mt ;; Ok (result ++ [it])
  | None => Ok result
  end.

Fixpoint foldM {A B} (f : A -> B -> M A) (l : list B) (a : A) : M A :=
  match l with
  | [] => Ok a
  | x :: l' => a' <- f a x ;; foldM f l' a'
  end.

(** The 'close' handler of [values]. *)
Definition values_close (self : registry) (code : option Z) (buffer : str)
  : M (called (option (list registry_item))) :=
  if nonzero code then Ok (Cb (Some (exit_error code)) None)
  else
    let items := items_numbered buffer in
    result <- foldM (values_item self) items [] ;;
    Ok (Cb None (Some result)).

(** The 'close' handler of [get]: [items[0] || ''] alone is matched. *)
Definition get_close (self : registry) (code : option Z) (buffer : str)
  : M (called (option registry_item)) :=
  if nonzero code then Ok (Cb (Some (exit_error code)) None)
  else
    let items := items_numbered buffer in
    let item := match items with
                | i0 :: _ => i0
                | [] => []
                end in
    match exec ITEM_PATTERN item with
    | Some mt => it <- item_of_match self mt ;; Ok (Cb None (Some it))
    | None => Ok (Cb None None)
    end.

(** One turn of the second loop of [keys]. *)
Definition keys_item (self : registry) (result : list registry) (item : str)
  : M (list registry) :=
  match exec PATH_PATTERN item with
  | Some mt =>
      match group 2 mt with
      | Some key0 =>
          if (Nat.ltb 0 (List.length key0) && negb (str_eqb key0 (key self)))%bool
          then
            r <- Registry (JObj (JStr (host self)) (JStr (hive self)) (JStr key0)) ;;
            Ok (result ++ [r])
          else Ok result
      | None => Ok result
      end
  | None => Ok result
  end.

(** The 'end' handler of the stdout of [keys]. *)
Definition keys_end (self : registry) (buffer : str)
  : M (called (option (list registry))) :=
  let items := items_all buffer in
  result <- foldM (keys_item self) items [] ;;
  Ok (Cb None (Some result)).

(** The 'close' handler of [keys]: it calls back on failure only. *)
Definition keys_close (code : option Z)
  : option (called (option (list registry))) :=
  if nonzero code then Some (Cb (Some (exit_error code)) None) else None.

(** The callback [keyExists] hands to [values], applied to what [values]
    calls it with. *)
Definition keyExists_callback (c : called (option (list registry_item)))
  : called bool :=
  let '(Cb err _) := c in
  Cb err (match err with None => true | Some _ => false end).

Definition keyExists_close (self : registry) (code : option Z) (buffer : str)
  : M (called bool) :=
  c <- values_close self code buffer ;;
  Ok (keyExists_callback c).

Section Methods.

(** The getter of [path] reads the identifier [host], which neither the
    getter, nor the constructor, nor the module declares: it resolves in
    the global object.  [global_host] is its value there, [None] when the
    global object has no such property. *)
Variable global_host : option jsval.

Definition read_host : M jsval :=
  match global_host with
  | Some v => Ok v
  | None => Throw (ReferenceError (lit "host is not defined"))
  end.

(** The getter of [path]. *)
Definition path (r : registry) : M str :=
  prefix <- (if Nat.eqb (List.length (host r)) 0 then Ok []
             else h <- read_host ;;
                  Ok (lit "\\" ++ to_str h ++ lit "\")) ;;
  Ok (prefix ++ hive r ++ key r).

Definition must_specify_a_callback : js_error :=
  TypeError (lit "must specify a callback").

(** The synchronous part of [values] and of [keys]. *)
Definition values (self : registry) (cb_is_function : bool) : M spawned :=
  if negb cb_is_function then Throw must_specify_a_callback
  else p <- path self ;; Ok (Spawn (lit "REG") [lit "QUERY"; p]).

Definition keys (self : registry) (cb_is_function : bool) : M spawned :=
  if negb cb_is_function then Throw must_specify_a_callback
  else p <- path self ;; Ok (Spawn (lit "REG") [lit "QUERY"; p]).

(** The synchronous part of [get]. *)
Definition get (self : registry) (name : str) (cb_is_function : bool)
  : M spawned :=
  if negb cb_is_function then Throw must_specify_a_callback
  else p <- path self ;; Ok (Spawn (lit "REG") [lit "QUERY"; p; lit "/v"; name]).

(** The synchronous part of [set]. *)
Definition set (self : registry) (name type value : str)
  (cb_is_function : bool) : M spawned :=
  if negb cb_is_function then Throw must_specify_a_callback
  else if Z.eqb (indexOf REG_TYPES type) (-1) then
    Throw (Error (lit "illegal type specified."))
  else
    p <- path self ;;
    let args := [lit "ADD"; p] in
    let args := if str_eqb name [] then args ++ [lit "/ve"]
                else args ++ [lit "/v"; name] in
    let args := args ++ [lit "/t"; type; lit "/d"; value; lit "/f"] in
    Ok (Spawn (lit "REG") args).

(** The synchronous part of [keyExists]: it calls [values] with a function. *)
Definition keyExists (self : registry) : M spawned := values self true.

End Methods.

(** The 'close' handler of [set]: [cb(err)]. *)
Definition set_close (code : option Z) : option js_error :=
  if nonzero code then Some (exit_error code) else None.

(** ** Definitions for the statements *)

(** What one run of a pattern can match, as a relation between the state
    before (index, rest of the input, groups) and the state after: the paths
    the backtracking matcher [m] explores. *)
Inductive matches : regex -> nat -> str -> captures ->
                    nat -> str -> captures -> Prop :=
| M_Eps pos s c : matches Eps pos s c pos s c
| M_Bol s c : matches Bol 0 s c 0 s c
| M_Eol pos c : matches Eol pos [] c pos [] c
| M_Cls p x pos s c :
    p x = true -> matches (Cls p) pos (x :: s) c (S pos) s c
| M_Seq r1 r2 pos s c pos1 s1 c1 pos2 s2 c2 :
    matches r1 pos s c pos1 s1 c1 ->
    matches r2 pos1 s1 c1 pos2 s2 c2 ->
    matches (Seq r1 r2) pos s c pos2 s2 c2
| M_AltL r1 r2 pos s c pos' s' c' :
    matches r1 pos s c pos' s' c' -> matches (Alt r1 r2) pos s c pos' s' c'
| M_AltR r1 r2 pos s c pos' s' c' :
    matches r2 pos s c pos' s' c' -> matches (Alt r1 r2) pos s c pos' s' c'
| M_Star0 r pos s c : matches (Star r) pos s c pos s c
| M_StarS r pos s c pos1 s1 c1 pos2 s2 c2 :
    matches r pos s (clear (groups r) c) pos1 s1 c1 ->
    pos < pos1 ->
    matches (Star r) pos1 s1 c1 pos2 s2 c2 ->
    matches (Star r) pos s c pos2 s2 c2
| M_Group i r pos s c pos' s' c' :
    matches r pos s c pos' s' c' ->
    matches (Group i r) pos s c pos' s'
      (upd i (Some (firstn (pos' - pos) s)) c').

(** A matcher that only returns results its continuation returns after a
    match of [r]. *)
Definition sound_for (r : regex) (mr : cont -> cont) : Prop :=
  forall k pos s c res,
    mr k pos s c = Some res ->
    exists pos' s' c', matches r pos s c pos' s' c' /\ k pos' s' c' = Some res.

(** The key grammar in the words of the specification: zero or more
    segments, each a backslash followed by one or more characters among
    letters, digits, underscore and whitespace. *)
Inductive key_grammar : str -> Prop :=
| key_root : key_grammar []
| key_segment seg rest :
    seg <> [] ->
    forallb key_char seg = true ->
    key_grammar rest ->
    key_grammar (backslash :: seg ++ rest).

Definition nonempty (l : str) : bool := Nat.ltb 0 (List.length l).

(** The shared preprocessing in the words of the specification: split into
    lines, trim each line, discard the empty ones. *)
Definition retained (buffer : str) : list str :=
  filter nonempty (map trim (split newline buffer)).

(** The records one retained line gives: one if it matches ITEM_PATTERN,
    none otherwise. *)
Definition line_records (self : registry) (line : str) : list registry_item :=
  match exec ITEM_PATTERN line with
  | Some mt =>
      match item_of_match self mt with
      | Ok it => [it]
      | Throw _ => []
      end
  | None => []
  end.

(** The entries one retained line gives in [keys]: one if it matches
    PATH_PATTERN with a non-empty rest other than the queried key, none
    otherwise. *)
Definition child_entries (self : registry) (line : str) : list registry :=
  match exec PATH_PATTERN line with
  | Some mt =>
      match group 2 mt with
      | Some key0 =>
          if (nonempty key0 && negb (str_eqb key0 (key self)))%bool
          then [{| host := host self; hive := hive self; key := key0 |}]
          else []
      | None => []
      end
  | None => []
  end.

(** The result of [get] in the words of the specification: the record of
    the first line, among those kept after the echoed path, that matches
    the value-line grammar; [None] (null) when no such line matches. *)
Definition first_matched_record (self : registry) (buffer : str)
  : option registry_item :=
  match find (test ITEM_PATTERN) (tl (retained buffer)) with
  | Some line => hd_error (line_records self line)
  | None => None
  end.

(** ** The other methods *)

Section OtherMethods.

Variable global_host : option jsval.

(** The synchronous part of [remove]: [name ? [..., '/v', name] : [..., '/ve']]. *)
Definition remove (self : registry) (name : str) (cb_is_function : bool)
  : M spawned :=
  if negb cb_is_function then Throw must_specify_a_callback
  else
    p <- path global_host self ;;
    Ok (Spawn (lit "REG")
          (if truthy (JStr name)
           then [lit "DELETE"; p; lit "/f"; lit "/v"; name]
           else [lit "DELETE"; p; lit "/f"; lit "/ve"])).

(** The synchronous part of [erase]. *)
Definition erase (self : registry) (cb_is_function : bool) : M spawned :=
  if negb cb_is_function then Throw must_specify_a_callback
  else p <- path global_host self ;;
       Ok (Spawn (lit "REG") [lit "DELETE"; p; lit "/f"; lit "/va"]).

(** The synchronous part of [create]. *)
Definition create (self : registry) (cb_is_function : bool) : M spawned :=
  if negb cb_is_function then Throw must_specify_a_callback
  else p <- path global_host self ;; Ok (Spawn (lit "REG") [lit "ADD"; p]).

(** The synchronous part of [delete]. *)
Definition delete (self : registry) (cb_is_function : bool) : M spawned :=
  if negb cb_is_function then Throw must_specify_a_callback
  else p <- path global_host self ;;
       Ok (Spawn (lit "REG") [lit "DELETE"; p; lit "/f"]).

(** The synchronous part of [valueExists]: it calls [get] with a function. *)
Definition valueExists (self : registry) (name : str) : M spawned :=
  get global_host self name true.

(** The calls of the public methods that take a callback of their own, and
    their synchronous part. *)
Inductive method :=
| Values
| Keys
| Get (name : str)
| Set_ (name type value : str)
| Remove (name : str)
| Erase
| Create
| Delete.

Definition call (self : registry) (mt : method) (cb_is_function : bool)
  : M spawned :=
  match mt with
  | Values => values global_host self cb_is_function
  | Keys => keys global_host self cb_is_function
  | Get name => get global_host self name cb_is_function
  | Set_ name type value => set global_host self name type value cb_is_function
  | Remove name => remove self name cb_is_function
  | Erase => erase self cb_is_function
  | Create => create self cb_is_function
  | Delete => delete self cb_is_function
  end.

End OtherMethods.

(** The 'close' handlers of [remove], [erase], [create] and [delete], each
    written out in the source as the one of [set]: [cb(err)]. *)
Definition remove_close (code : option Z) : option js_error :=
  if nonzero code then Some (exit_error code) else None.

Definition erase_close (code : option Z) : option js_error :=
  if nonzero code then Some (exit_error code) else None.

Definition create_close (code : option Z) : option js_error :=
  if nonzero code then Some (exit_error code) else None.

Definition delete_close (code : option Z) : option js_error :=
  if nonzero code then Some (exit_error code) else None.

(** The callback [valueExists] hands to [get], applied to what [get] calls
    it with. *)
Definition valueExists_callback (c : called (option registry_item))
  : called bool :=
  let '(Cb err _) := c in
  Cb err (match err with None => true | Some _ => false end).

Definition valueExists_close (self : registry) (code : option Z) (buffer : str)
  : M (called bool) :=
  c <- get_close self code buffer ;;
  Ok (valueExists_callback c).

(** What the callback of [keys] receives over the life of the process: the
    call of the 'end' handler of stdout, then the call of the 'close'
    handler of the process if it makes one. *)
Definition keys_calls (self : registry) (code : option Z) (buffer : str)
  : M (list (called (option (list registry)))) :=
  c <- keys_end self buffer ;;
  Ok (c :: match keys_close code with
           | Some c' => [c']
           | None => []
           end).

(** [n] times the getter of [parent]. *)
Fixpoint ancestor (n : nat) (r : registry) : M registry :=
  match n with
  | 0 => Ok r
  | S n' => p <- parent r ;; ancestor n' p
  end.

(** [t] occurs in [s]. *)
Definition occurs (t s : str) : Prop := exists pre post, s = pre ++ t ++ post.

(** What follows group 1 in ITEM_PATTERN. *)
Definition ITEM_REST : regex :=
  Seq (Cls is_space)
    (Seq (Group 2
            (Alts (map Lit [REG_SZ; REG_MULTI_SZ; REG_EXPAND_SZ;
                            REG_DWORD; REG_QWORD; REG_BINARY])
               (Lit REG_NONE)))
       (Seq (Plus (Cls is_space))
          (Seq (Group 3 (Seq (Cls not_space) (Star (Cls dot))))
             Eol))).

(** [t] is a prefix of [s]; [t] occurs in [s]. *)
Fixpoint prefixb (t s : str) : bool :=
  match t, s with
  | [], _ => true
  | x :: t', y :: s' => char_eqb x y && prefixb t' s'
  | _ :: _, [] => false
  end.

Fixpoint occursb (t s : str) : bool :=
  (prefixb t s ||
   match s with
   | [] => false
   | _ :: s' => occursb t s'
   end)%bool.

(** No name of REG_TYPES occurs in [s]. *)
Definition no_type_name (s : str) : bool :=
  forallb (fun t => negb (occursb t s)) REG_TYPES.

(** ** Strings: basic facts *)

Lemma char_eqb_eq a b : char_eqb a b = true <-> a = b.
Proof. unfold char_eqb. apply N.eqb_eq. Qed.

Lemma str_eqb_eq a b : str_eqb a b = true <-> a = b.
Proof.
  revert b. induction a as [|x a IH]; intros [|y b]; simpl;
    try (split; [discriminate | discriminate]); try tauto.
  rewrite andb_true_iff, char_eqb_eq, IH.
  split; [intros [-> ->]; reflexivity | intros H; inversion H; auto].
Qed.

Lemma str_eqb_refl a : str_eqb a a = true.
Proof. apply str_eqb_eq. reflexivity. Qed.

Lemma str_eqb_neq a b : str_eqb a b = false <-> a <> b.
Proof.
  rewrite <- str_eqb_eq. destruct (str_eqb a b); split; congruence.
Qed.

Lemma indexOf_from_In i a x :
  (0 <= i)%Z ->
  (indexOf_from i a x = -1)%Z <-> ~ In x a.
Proof.
  revert i. induction a as [|y a IH]; intros i Hi; simpl.
  - tauto.
  - destruct (str_eqb y x) eqn:E.
    + apply str_eqb_eq in E. subst. split; [lia | tauto].
    + apply str_eqb_neq in E. rewrite IH by lia. tauto.
Qed.

Lemma indexOf_In a x : (indexOf a x = -1)%Z <-> ~ In x a.
Proof. apply indexOf_from_In. lia. Qed.

Lemma indexOf_eqb_In a x : Z.eqb (indexOf a x) (-1) = false <-> In x a.
Proof.
  rewrite Z.eqb_neq, indexOf_In.
  split; [| tauto].
  intros H. destruct (in_dec (list_eq_dec N.eq_dec) x a); tauto.
Qed.

Lemma indexOf_eqb_not_In a x : Z.eqb (indexOf a x) (-1) = true <-> ~ In x a.
Proof. rewrite Z.eqb_eq. apply indexOf_In. Qed.

(** ** The matcher explores only matches *)

Section Soundness.

Lemma star_loop_sound r mr :
  sound_for r mr ->
  forall n, sound_for (Star r) (fun k => star_loop mr (groups r) k n).
Proof.
  intros Hmr n. unfold sound_for.
  induction n as [|n IHn]; simpl; intros k pos s c res H.
  - exists pos, s, c. split; [constructor | exact H].
  - destruct (mr _ pos s (clear (groups r) c)) as [res'|] eqn:E.
    + injection H as ->.
      apply Hmr in E as (p1 & s1 & c1 & Hm & Hk).
      destruct (Nat.ltb pos p1) eqn:L; [|discriminate].
      apply IHn in Hk as (p2 & s2 & c2 & Hm2 & Hk2).
      exists p2, s2, c2. split; [|exact Hk2].
      eapply M_StarS; eauto. now apply Nat.ltb_lt.
    + exists pos, s, c. split; [constructor | exact H].
Qed.

Lemma m_sound r : sound_for r (m r).
Proof.
  induction r as [| | |p|r1 IH1 r2 IH2|r1 IH1 r2 IH2|r1 IH1|i r1 IH1];
    unfold sound_for; simpl; intros k pos s c res H.
  - exists pos, s, c. split; [constructor | exact H].
  - destruct pos; simpl in H; [|discriminate].
    exists 0, s, c. split; [constructor | exact H].
  - destruct s; [|discriminate].
    exists pos, [], c. split; [constructor | exact H].
  - destruct s as [|x s]; [discriminate|].
    destruct (p x) eqn:E; [|discriminate].
    exists (S pos), s, c. split; [now constructor | exact H].
  - apply IH1 in H as (p1 & s1 & c1 & Hm1 & H).
    apply IH2 in H as (p2 & s2 & c2 & Hm2 & H).
    exists p2, s2, c2. split; [econstructor; eauto | exact H].
  - destruct (m r1 k pos s c) as [res'|] eqn:E.
    + injection H as ->. apply IH1 in E as (p1 & s1 & c1 & Hm1 & H).
      exists p1, s1, c1. split; [now apply M_AltL | exact H].
    + apply IH2 in H as (p1 & s1 & c1 & Hm1 & H).
      exists p1, s1, c1. split; [now apply M_AltR | exact H].
  - exact (star_loop_sound r1 (m r1) IH1 (List.length s) k pos s c res H).
  - apply IH1 in H as (p1 & s1 & c1 & Hm1 & H).
    exists p1, s1, (upd i (Some (firstn (p1 - pos) s)) c1).
    split; [now constructor | exact H].
Qed.

End Soundness.

(** The result of [m] depends on its continuation only at the states that
    lie ahead in the input. *)
Lemma m_ext r : forall k1 k2 pos s c,
  (forall w s' c', s = w ++ s' ->
     k1 (pos + List.length w) s' c' = k2 (pos + List.length w) s' c') ->
  m r k1 pos s c = m r k2 pos s c.
Proof.
  induction r as [| | |p|r1 IH1 r2 IH2|r1 IH1 r2 IH2|r1 IH1|i r1 IH1];
    intros k1 k2 pos s c H; cbn [m].
  - specialize (H [] s c eq_refl). simpl in H. now rewrite Nat.add_0_r in H.
  - specialize (H [] s c eq_refl). simpl in H. rewrite Nat.add_0_r in H.
    now rewrite H.
  - specialize (H [] s c eq_refl). simpl in H. rewrite Nat.add_0_r in H.
    destruct s; [exact H | reflexivity].
  - destruct s as [|x s]; [reflexivity|].
    specialize (H [x] s c eq_refl). simpl in H.
    replace (pos + 1) with (S pos) in H by lia. now rewrite H.
  - apply IH1. intros w s' c' ->. apply IH2. intros w2 s2 c2 ->.
    specialize (H (w ++ w2) s2 c2). rewrite length_app, Nat.add_assoc in H.
    apply H. now rewrite app_assoc.
  - rewrite (IH1 k1 k2), (IH2 k1 k2) by assumption. reflexivity.
  - generalize (List.length s) as n. intros n. revert pos s c H.
    induction n as [|n IHn]; intros pos s c H; cbn [star_loop].
    + specialize (H [] s c eq_refl). simpl in H. now rewrite Nat.add_0_r in H.
    + assert (Hk : k1 pos s c = k2 pos s c).
      { specialize (H [] s c eq_refl). simpl in H.
        now rewrite Nat.add_0_r in H. }
      rewrite Hk. erewrite IH1; [reflexivity|].
      intros w s' c' ->. cbv beta.
      destruct (Nat.ltb pos (pos + List.length w)); [|reflexivity].
      apply IHn. intros w2 s2 c2 ->.
      specialize (H (w ++ w2) s2 c2). rewrite length_app, Nat.add_assoc in H.
      apply H. now rewrite app_assoc.
  - apply IH1. intros w s' c' ->. apply H. reflexivity.
Qed.

Lemma m_none r pos s c : m r (fun _ _ _ => None) pos s c = None.
Proof.
  revert pos s c.
  induction r as [| | |p|r1 IH1 r2 IH2|r1 IH1 r2 IH2|r1 IH1|i r1 IH1];
    intros pos s c; cbn [m].
  - reflexivity.
  - now destruct (Nat.eqb pos 0).
  - now destruct s.
  - destruct s as [|x s]; [reflexivity | now destruct (p x)].
  - rewrite (m_ext r1 (m r2 (fun _ _ _ => None)) (fun _ _ _ => None)); [apply IH1|].
    intros. apply IH2.
  - now rewrite IH1, IH2.
  - generalize (List.length s) as n. intros n. revert pos s c.
    induction n as [|n IHn]; intros pos s c; cbn [star_loop]; [reflexivity|].
    rewrite (m_ext r1 _ (fun _ _ _ => None)); [now rewrite IH1|].
    intros w s' c' _. cbv beta.
    destruct (Nat.ltb pos (pos + List.length w)); [apply IHn | reflexivity].
  - apply IH1.
Qed.

(** The bound on the loop of [*] is never what stops it: one more turn
    changes nothing once the bound is the length of the rest of the input. *)
Lemma star_loop_bound r k n : forall pos s c,
  List.length s <= n ->
  star_loop (m r) (groups r) k (S n) pos s c =
    star_loop (m r) (groups r) k n pos s c.
Proof.
  induction n as [|n IHn]; intros pos s c Hn.
  - destruct s; [|simpl in Hn; lia]. cbn [star_loop].
    rewrite (m_ext r _ (fun _ _ _ => None)); [now rewrite m_none|].
    intros w s' c' E. symmetry in E. apply app_eq_nil in E as (-> & ->).
    cbv beta. simpl List.length. rewrite Nat.add_0_r, Nat.ltb_irrefl. reflexivity.
  - cbn [star_loop].
    erewrite m_ext; [reflexivity|].
    intros w s' c' ->. cbv beta.
    destruct (Nat.ltb pos (pos + List.length w)) eqn:E; [|reflexivity].
    apply Nat.ltb_lt in E. apply IHn.
    rewrite length_app in Hn. lia.
Qed.






Lemma matches_consumes r pos s c pos' s' c' :
  matches r pos s c pos' s' c' ->
  exists w, s = w ++ s' /\ pos' = pos + List.length w.
Proof.
  induction 1.
  - exists []. auto.
  - exists []. auto.
  - exists []. auto.
  - exists [x]. simpl. split; [reflexivity | lia].
  - destruct IHmatches1 as (w1 & -> & ->), IHmatches2 as (w2 & -> & ->).
    exists (w1 ++ w2). rewrite <- app_assoc, length_app. split; [reflexivity | lia].
  - assumption.
  - assumption.
  - exists []. auto.
  - destruct IHmatches1 as (w1 & -> & ->), IHmatches2 as (w2 & -> & ->).
    exists (w1 ++ w2). rewrite <- app_assoc, length_app. split; [reflexivity | lia].
  - assumption.
Qed.

Lemma matches_Seq r1 r2 pos s c pos2 s2 c2 :
  matches (Seq r1 r2) pos s c pos2 s2 c2 ->
  exists pos1 s1 c1,
    matches r1 pos s c pos1 s1 c1 /\ matches r2 pos1 s1 c1 pos2 s2 c2.
Proof. inversion 1; subst; eauto. Qed.

Lemma matches_Group i r pos s c pos' s' c' :
  matches (Group i r) pos s c pos' s' c' ->
  exists w c1,
    matches r pos s c pos' s' c1 /\ s = w ++ s' /\
    pos' = pos + List.length w /\ c' = upd i (Some w) c1.
Proof.
  inversion 1; subst.
  destruct (matches_consumes _ _ _ _ _ _ _ H8) as (w & -> & ->).
  exists w, c'0. repeat split; auto.
  replace (pos + List.length w - pos) with (List.length w) by lia.
  now rewrite firstn_app, Nat.sub_diag, firstn_all, firstn_O, app_nil_r.
Qed.

Lemma matches_Cls p pos s c pos' s' c' :
  matches (Cls p) pos s c pos' s' c' ->
  exists x, s = x :: s' /\ p x = true /\ pos' = S pos /\ c' = c.
Proof. inversion 1; subst; eauto. Qed.

Lemma matches_Lit w pos s c pos' s' c' :
  matches (Lit w) pos s c pos' s' c' ->
  s = w ++ s' /\ pos' = pos + List.length w /\ c' = c.
Proof.
  revert pos s c. induction w as [|x w IH]; simpl; intros pos s c H.
  - inversion H; subst. auto.
  - apply matches_Seq in H as (p1 & s1 & c1 & H1 & H2).
    apply matches_Cls in H1 as (y & -> & E & -> & ->).
    apply char_eqb_eq in E. subst y.
    apply IH in H2 as (-> & -> & ->). repeat split; simpl; lia || auto.
Qed.

Lemma matches_Alts rs last pos s c pos' s' c' :
  matches (Alts rs last) pos s c pos' s' c' ->
  (exists r, In r rs /\ matches r pos s c pos' s' c') \/
  matches last pos s c pos' s' c'.
Proof.
  induction rs as [|r rs IH]; simpl; intros H; [now right|].
  inversion H; subst.
  - left. eauto.
  - destruct (IH H8) as [(r' & Hin & Hm)|Hm]; [left; eauto | now right].
Qed.

Lemma matches_Star_Cls p pos s c pos' s' c' :
  matches (Star (Cls p)) pos s c pos' s' c' ->
  exists w, s = w ++ s' /\ forallb p w = true /\
            pos' = pos + List.length w /\ c' = c.
Proof.
  remember (Star (Cls p)) as r eqn:Er. intros H. revert Er.
  induction H; intros Er; try discriminate.
  - exists []. auto.
  - injection Er as ->.
    apply matches_Cls in H as (x & -> & Hx & -> & ->).
    destruct (IHmatches2 eq_refl) as (w & -> & Hw & -> & ->).
    exists (x :: w). simpl. rewrite Hx, Hw. repeat split; lia || auto.
Qed.

Lemma matches_Plus_Cls p pos s c pos' s' c' :
  matches (Plus (Cls p)) pos s c pos' s' c' ->
  exists w, s = w ++ s' /\ forallb p w = true /\ w <> [] /\
            pos' = pos + List.length w /\ c' = c.
Proof.
  unfold Plus. intros H.
  apply matches_Seq in H as (p1 & s1 & c1 & H1 & H2).
  apply matches_Cls in H1 as (x & -> & Hx & -> & ->).
  apply matches_Star_Cls in H2 as (w & -> & Hw & -> & ->).
  exists (x :: w). simpl. rewrite Hx, Hw.
  repeat split; lia || discriminate || auto.
Qed.

(** [exec] returns the groups of a match starting at some index. *)
Lemma search_sound r : forall s pos mt,
  search r pos s = Some mt ->
  exists pre suf pos' s' c',
    s = pre ++ suf /\
    matches r (pos + List.length pre) suf (repeat None (S (ngroups r))) pos' s' c' /\
    mt = upd 0 (Some (firstn (pos' - (pos + List.length pre)) suf)) c'.
Proof.
  induction s as [|x s IH]; intros pos mt H; simpl in H.
  - destruct (match_at r pos []) as [res|] eqn:E; [|discriminate].
    injection H as ->. unfold match_at in E.
    apply m_sound in E as (p' & s' & c' & Hm & Hk). injection Hk as <-.
    exists [], [], p', s', c'. simpl. rewrite Nat.add_0_r. auto.
  - destruct (match_at r pos (x :: s)) as [res|] eqn:E.
    + injection H as ->. unfold match_at in E.
      apply m_sound in E as (p' & s' & c' & Hm & Hk). injection Hk as <-.
      exists [], (x :: s), p', s', c'. simpl. rewrite Nat.add_0_r. auto.
    + apply IH in H as (pre & suf & p' & s' & c' & -> & Hm & ->).
      exists (x :: pre), suf, p', s', c'. simpl.
      replace (pos + S (List.length pre)) with (S pos + List.length pre) by lia.
      auto.
Qed.

Lemma matches_Bol pos s c pos' s' c' :
  matches Bol pos s c pos' s' c' -> pos = 0 /\ pos' = 0 /\ s' = s /\ c' = c.
Proof. inversion 1; subst; auto. Qed.

Lemma matches_Eol pos s c pos' s' c' :
  matches Eol pos s c pos' s' c' -> s = [] /\ pos' = pos /\ s' = [] /\ c' = c.
Proof. inversion 1; subst; auto. Qed.

(** ** What the two anchored patterns return *)

Lemma ngroups_PATH_PATTERN : ngroups PATH_PATTERN = 2.
Proof. vm_compute. reflexivity. Qed.

Lemma ngroups_ITEM_PATTERN : ngroups ITEM_PATTERN = 3.
Proof. vm_compute. reflexivity. Qed.

Lemma matches_Alts_Lit ws w pos s c pos' s' c' :
  matches (Alts (map Lit ws) (Lit w)) pos s c pos' s' c' ->
  exists t, In t (ws ++ [w]) /\
            s = t ++ s' /\ pos' = pos + List.length t /\ c' = c.
Proof.
  intros H. apply matches_Alts in H as [(r & Hin & Hm)|Hm].
  - apply in_map_iff in Hin as (t & <- & Hin).
    apply matches_Lit in Hm. exists t. split; [|exact Hm].
    apply in_or_app. now left.
  - apply matches_Lit in Hm. exists w. split; [|exact Hm].
    apply in_or_app. right. now left.
Qed.

(** A match of PATH_PATTERN splits the line into a long hive name and a
    rest without line terminator; both groups are defined. *)
Lemma exec_PATH_PATTERN s mt :
  exec PATH_PATTERN s = Some mt ->
  exists L rest,
    In L LONG_HIVES /\ s = L ++ rest /\ forallb dot rest = true /\
    mt = [Some s; Some L; Some rest].
Proof.
  unfold exec. intros H.
  apply search_sound in H as (pre & suf & p' & s' & c' & -> & Hm & ->).
  rewrite ngroups_PATH_PATTERN in Hm. unfold PATH_PATTERN in Hm.
  apply matches_Seq in Hm as (p1 & s1 & c1 & Hbol & Hm).
  apply matches_Bol in Hbol as (Hpos & -> & -> & ->).
  assert (pre = []) as -> by (destruct pre; simpl in Hpos; [reflexivity | lia]).
  simpl List.length in *. simpl Nat.add in *. clear Hpos.
  apply matches_Seq in Hm as (p1 & s1 & c1 & Hg1 & Hm).
  apply matches_Group in Hg1 as (w1 & c1' & Hh & -> & -> & ->).
  apply matches_Alts_Lit in Hh as (L & HL & E & _ & ->).
  apply app_inv_tail in E. subst w1.
  apply matches_Seq in Hm as (p2 & s2 & c2 & Hg2 & He).
  apply matches_Group in Hg2 as (w2 & c2' & Hd & -> & -> & ->).
  apply matches_Star_Cls in Hd as (w & E & Hw & _ & ->).
  apply app_inv_tail in E. subst w2.
  apply matches_Eol in He as (-> & -> & _ & ->).
  exists L, w. rewrite app_nil_r. repeat split; auto.
  simpl. rewrite Nat.sub_0_r.
  replace (List.length L + List.length w) with (List.length (L ++ w))
    by apply length_app.
  now rewrite firstn_all.
Qed.

Lemma exec_ITEM_PATTERN s mt :
  exec ITEM_PATTERN s = Some mt ->
  exists n sp t ws v,
    mt = [Some s; Some n; Some t; Some v] /\
    s = n ++ sp :: t ++ ws ++ v /\
    n <> [] /\ forallb name_char n = true /\
    is_space sp = true /\
    In t REG_TYPES /\
    ws <> [] /\ forallb is_space ws = true /\
    (exists x v', v = x :: v' /\ not_space x = true /\ forallb dot v' = true).
Proof.
  unfold exec. intros H.
  apply search_sound in H as (pre & suf & p' & s' & c' & -> & Hm & ->).
  rewrite ngroups_ITEM_PATTERN in Hm. unfold ITEM_PATTERN in Hm.
  apply matches_Seq in Hm as (p1 & s1 & c1 & Hbol & Hm).
  apply matches_Bol in Hbol as (Hpos & -> & -> & ->).
  assert (pre = []) as -> by (destruct pre; simpl in Hpos; [reflexivity | lia]).
  simpl List.length in *. simpl Nat.add in *. clear Hpos.
  apply matches_Seq in Hm as (p1 & s1 & c1 & Hg1 & Hm).
  apply matches_Group in Hg1 as (w1 & c1' & Hn & -> & -> & ->).
  apply matches_Plus_Cls in Hn as (n & E & Hn & Hne & _ & ->).
  apply app_inv_tail in E. subst w1.
  apply matches_Seq in Hm as (p2 & s2 & c2 & Hsp & Hm).
  apply matches_Cls in Hsp as (sp & -> & Hsp & -> & ->).
  apply matches_Seq in Hm as (p3 & s3 & c3 & Hg2 & Hm).
  apply matches_Group in Hg2 as (w2 & c2' & Ht & -> & -> & ->).
  apply matches_Alts_Lit in Ht as (t & Ht & E & _ & ->).
  apply app_inv_tail in E. subst w2.
  apply matches_Seq in Hm as (p4 & s4 & c4 & Hws & Hm).
  apply matches_Plus_Cls in Hws as (ws & -> & Hws & Hwsne & -> & ->).
  apply matches_Seq in Hm as (p5 & s5 & c5 & Hg3 & He).
  apply matches_Group in Hg3 as (w3 & c3' & Hv & -> & -> & ->).
  apply matches_Seq in Hv as (p6 & s6 & c6 & Hx & Hd).
  apply matches_Cls in Hx as (x & E & Hx & -> & ->).
  apply matches_Star_Cls in Hd as (v' & -> & Hv' & _ & ->).
  apply matches_Eol in He as (-> & -> & _ & ->).
  rewrite app_nil_r in E. subst w3.
  exists n, sp, t, ws, (x :: v'). repeat split; auto.
  - rewrite !app_nil_r. cbn [upd repeat].
    rewrite Nat.sub_0_r, firstn_all2; [reflexivity|].
    rewrite !length_app. simpl. rewrite !length_app. simpl. lia.
  - now rewrite !app_nil_r.
  - exists x, v'. auto.
Qed.

(** ** The constructor *)

(** KEY_PATTERN has no anchor and its only atom is starred: it matches the
    empty string at index 0 of every input. *)
Lemma star_loop_total mr gs k n pos s c :
  (forall pos s c, k pos s c <> None) ->
  star_loop mr gs k n pos s c <> None.
Proof.
  intros Hk. destruct n as [|n]; simpl; [apply Hk|].
  destruct (mr _ pos s (clear gs c)); [discriminate | apply Hk].
Qed.

Lemma test_KEY_PATTERN s : test KEY_PATTERN s = true.
Proof.
  unfold test, exec.
  assert (H : match_at KEY_PATTERN 0 s <> None).
  { unfold match_at, KEY_PATTERN. cbn [m].
    apply star_loop_total. discriminate. }
  destruct s; simpl; destruct (match_at KEY_PATTERN 0 _); congruence.
Qed.

Lemma get_fields_default o :
  let o' := js_or o (JObj JUndefined JUndefined JUndefined) in
  get_host o' = get_host o /\ get_hive o' = get_hive o /\ get_key o' = get_key o.
Proof.
  unfold js_or. destruct (truthy o) eqn:E; auto.
  destruct o; simpl in *; auto; discriminate.
Qed.

(** The constructor as a function of the three fields of [options]. *)
Lemma Registry_eq options :
  let _host := to_str (js_or (get_host options) (JStr [])) in
  let _hive := to_str (js_or (get_hive options) (JStr HKLM)) in
  let _key := to_str (js_or (get_key options) (JStr [])) in
  Registry options =
    if Z.eqb (indexOf HIVES _hive) (-1)
    then Throw (Error (lit "illegal hive specified."))
    else Ok {| host := _host; hive := _hive; key := _key |}.
Proof.
  unfold Registry.
  destruct (get_fields_default options) as (-> & -> & ->).
  cbv zeta. rewrite test_KEY_PATTERN. reflexivity.
Qed.

Lemma Registry_illegal_hive options :
  ~ In (to_str (js_or (get_hive options) (JStr HKLM))) HIVES ->
  Registry options = Throw (Error (lit "illegal hive specified.")).
Proof.
  intros H. rewrite Registry_eq. cbv zeta.
  apply indexOf_eqb_not_In in H. now rewrite H.
Qed.

Lemma In_HIVES_truthy v : In v HIVES -> truthy (JStr v) = true.
Proof.
  intros H. destruct v; [|reflexivity].
  exfalso. revert H. unfold HIVES. simpl. intuition discriminate.
Qed.

Lemma js_or_str s : to_str (js_or (JStr s) (JStr [])) = s.
Proof. destruct s; reflexivity. Qed.

(** With a hive of the enumeration, every host and every key string are
    accepted as they are. *)
Lemma Registry_options_of h v k :
  In v HIVES ->
  Registry (options_of h v k) = Ok {| host := h; hive := v; key := k |}.
Proof.
  intros Hv. rewrite Registry_eq. cbv zeta. unfold options_of.
  cbn [get_host get_hive get_key]. rewrite !js_or_str.
  replace (to_str (js_or (JStr v) (JStr HKLM))) with v
    by (unfold js_or; now rewrite (In_HIVES_truthy v Hv)).
  apply indexOf_eqb_In in Hv. now rewrite Hv.
Qed.

Lemma Registry_ok_hive options r : Registry options = Ok r -> In (hive r) HIVES.
Proof.
  rewrite Registry_eq. cbv zeta.
  destruct (Z.eqb _ _) eqn:E; [discriminate|].
  intros H. injection H as <-. cbn [hive]. apply indexOf_eqb_In. exact E.
Qed.

(** C1, the failing input: the key [Software/Run!] has no leading backslash
    and holds characters outside the class, so it is not of the key grammar,
    yet the constructor returns an object with this key; KEY_PATTERN accepts
    it, as it accepts every string. *)
Theorem Registry_accepts_ungrammatical_key :
  ~ key_grammar (lit "Software/Run!") /\
  test KEY_PATTERN (lit "Software/Run!") = true /\
  Registry (options_of [] HKLM (lit "Software/Run!")) =
    Ok {| host := []; hive := HKLM; key := lit "Software/Run!" |}.
Proof.
  split; [|split].
  - intros H. inversion H.
  - vm_compute. reflexivity.
  - vm_compute. reflexivity.
Qed.

(** ** [path] and [parent] *)

Lemma path_local g r :
  host r = [] -> path g r = Ok (hive r ++ key r).
Proof. unfold path. intros ->. reflexivity. Qed.

Lemma path_remote_unbound r :
  host r <> [] ->
  path None r = Throw (ReferenceError (lit "host is not defined")).
Proof.
  unfold path. intros H. destruct (host r); [congruence | reflexivity].
Qed.

Lemma path_remote_bound v r :
  host r <> [] ->
  path (Some v) r = Ok (lit "\\" ++ to_str v ++ lit "\" ++ hive r ++ key r).
Proof.
  unfold path. intros H. destruct (host r); [congruence|].
  simpl. now rewrite <- !app_assoc.
Qed.

(** C2, the failing input: for the Registry of host [server], hive HKLM and
    key [\Software], reading [path] raises a ReferenceError, the getter
    naming [host] where the private member is [_host]; the claim gives
    [\\server\HKLM\Software]. *)
Theorem path_with_host_raises :
  Registry (options_of (lit "server") HKLM (lit "\Software")) =
    Ok {| host := lit "server"; hive := HKLM; key := lit "\Software" |} /\
  path None {| host := lit "server"; hive := HKLM; key := lit "\Software" |} =
    Throw (ReferenceError (lit "host is not defined")).
Proof. split; vm_compute; reflexivity. Qed.

Lemma lastIndexOf_from_absent i last s c :
  ~ In c s -> lastIndexOf_from i last s c = last.
Proof.
  revert i last. induction s as [|x s IH]; intros i last H; simpl; auto.
  destruct (char_eqb x c) eqn:E.
  - apply char_eqb_eq in E. subst. exfalso. apply H. now left.
  - apply IH. intros Hin. apply H. now right.
Qed.

Lemma lastIndexOf_from_last i last p seg c :
  ~ In c seg ->
  lastIndexOf_from i last (p ++ c :: seg) c = (i + Z.of_nat (List.length p))%Z.
Proof.
  intros Hseg. revert i last.
  induction p as [|x p IH]; intros i last; simpl.
  - replace (char_eqb c c) with true by (symmetry; now apply char_eqb_eq).
    rewrite lastIndexOf_from_absent by assumption. lia.
  - rewrite IH. lia.
Qed.

Lemma lastIndexOf_absent s c : ~ In c s -> lastIndexOf s c = (-1)%Z.
Proof. apply lastIndexOf_from_absent. Qed.

Lemma lastIndexOf_last p seg c :
  ~ In c seg -> lastIndexOf (p ++ c :: seg) c = Z.of_nat (List.length p).
Proof. intros H. unfold lastIndexOf. now rewrite lastIndexOf_from_last. Qed.

(** The parent of a constructed Registry: the same host and hive, and the
    key cut at its last backslash. *)
Lemma parent_eq r :
  In (hive r) HIVES ->
  parent r =
    Ok {| host := host r; hive := hive r;
          key := if Z.eqb (lastIndexOf (key r) backslash) (-1) then []
                 else substring0 (key r) (lastIndexOf (key r) backslash) |}.
Proof.
  intros Hv. unfold parent.
  exact (Registry_options_of (host r) (hive r) _ Hv).
Qed.

(** C9: for every host [h], every hive [v] of the enumeration and every key
    string [k] (so for every key of the grammar), the constructor returns
    the Registry of these three fields; its parent is a Registry with the
    same host and hive whose key is [k] without its last backslash-delimited
    segment ([p] when [k] is [p], a backslash and a segment without
    backslash; empty when [k] has no backslash); the parent of the hive root
    (empty key) is the hive root itself. *)
Theorem Registry_parent (h v k : str) :
  In v HIVES ->
  exists r r',
    Registry (options_of h v k) = Ok r /\
    host r = h /\ hive r = v /\ key r = k /\
    parent r = Ok r' /\
    host r' = h /\ hive r' = v /\
    (forall p seg, k = p ++ backslash :: seg -> ~ In backslash seg -> key r' = p) /\
    (~ In backslash k -> key r' = []) /\
    (k = [] -> r' = r).
Proof.
  intros Hv.
  eexists. eexists.
  split; [apply Registry_options_of; exact Hv|].
  cbn [host hive key].
  split; [reflexivity|]. split; [reflexivity|]. split; [reflexivity|].
  split; [apply parent_eq; exact Hv|].
  cbn [host hive key].
  split; [reflexivity|]. split; [reflexivity|].
  split; [|split].
  - intros p seg -> Hseg. rewrite lastIndexOf_last by assumption.
    replace (Z.eqb (Z.of_nat (List.length p)) (-1)) with false
      by (symmetry; apply Z.eqb_neq; lia).
    unfold substring0. rewrite Nat2Z.id.
    now rewrite firstn_app, Nat.sub_diag, firstn_all, firstn_O, app_nil_r.
  - intros Hk. now rewrite lastIndexOf_absent.
  - intros ->. reflexivity.
Qed.

Lemma Registry_parent_witness :
  In HKCU HIVES /\
  exists r r',
    Registry (options_of [] HKCU (lit "\Software\FrEsC\node-winreg")) = Ok r /\
    host r = [] /\ hive r = HKCU /\ key r = lit "\Software\FrEsC\node-winreg" /\
    parent r = Ok r' /\
    host r' = [] /\ hive r' = HKCU /\
    (forall p seg, lit "\Software\FrEsC\node-winreg" = p ++ backslash :: seg ->
                   ~ In backslash seg -> key r' = p) /\
    (~ In backslash (lit "\Software\FrEsC\node-winreg") -> key r' = []) /\
    (lit "\Software\FrEsC\node-winreg" = [] -> r' = r).
Proof.
  assert (H : In HKCU HIVES) by (right; left; reflexivity).
  split; [exact H|].
  exact (@Registry_parent [] HKCU (lit "\Software\FrEsC\node-winreg") H).
Defined.

Example parent_of_test_key :
  parent {| host := []; hive := HKCU; key := lit "\Software\FrEsC\node-winreg" |} =
    Ok {| host := []; hive := HKCU; key := lit "\Software\FrEsC" |} /\
  parent {| host := []; hive := HKCU; key := lit "\Software" |} =
    Ok {| host := []; hive := HKCU; key := [] |} /\
  parent {| host := []; hive := HKCU; key := [] |} =
    Ok {| host := []; hive := HKCU; key := [] |}.
Proof. repeat split; vm_compute; reflexivity. Qed.

(** C10: called with no options, or with options in which a field is absent
    or falsy, the constructor gives that field its default (empty host, hive
    HKLM, empty key); a field that is present is turned into a string, and
    the hive is validated as that string: construction succeeds whenever the
    hive is defaulted or its string is in the enumeration.  So a hive given
    as the array [['HKCU']], which is no string but has the string form
    HKCU, is accepted and stored as the string; the number 42 and [-7] are
    stored as their numerals, [true] as the string [true]; and a hive whose
    string form is outside the enumeration is refused. *)
Theorem Registry_defaults :
  (forall options : jsval,
      truthy (get_hive options) = false \/
      In (to_str (get_hive options)) HIVES ->
      Registry options =
        Ok {| host := if truthy (get_host options)
                      then to_str (get_host options) else [];
              hive := if truthy (get_hive options)
                      then to_str (get_hive options) else HKLM;
              key := if truthy (get_key options)
                     then to_str (get_key options) else [] |}) /\
  Registry JUndefined = Ok {| host := []; hive := HKLM; key := [] |} /\
  Registry (JObj JNull (JNum 0 eq_refl) (JStr [])) =
    Ok {| host := []; hive := HKLM; key := [] |} /\
  Registry (JObj (JNum 42 eq_refl) (JArr [HKCU]) (JBool true)) =
    Ok {| host := lit "42"; hive := HKCU; key := lit "true" |} /\
  Registry (JObj (JNum (-7) eq_refl) (JStr HKU) (JArr [lit "a"; lit "b"])) =
    Ok {| host := lit "-7"; hive := HKU; key := lit "a,b" |} /\
  Registry (JObj JUndefined (JArr [HKCU; HKLM]) JUndefined) =
    Throw (Error (lit "illegal hive specified.")) /\
  Registry (JObj JUndefined (JBool true) JUndefined) =
    Throw (Error (lit "illegal hive specified.")).
Proof.
  split; [|repeat split; vm_compute; reflexivity].
  intros options Hv. rewrite Registry_eq. cbv zeta. unfold js_or.
  assert (Hin : In (to_str (if truthy (get_hive options)
                            then get_hive options else JStr HKLM)) HIVES).
  { destruct Hv as [-> | Hin]; [left; reflexivity|].
    destruct (truthy (get_hive options)); [exact Hin | left; reflexivity]. }
  apply indexOf_eqb_In in Hin. rewrite Hin.
  destruct (truthy (get_host options)), (truthy (get_hive options)),
    (truthy (get_key options)); reflexivity.
Qed.

Lemma Registry_defaults_witness :
  (truthy (get_hive (JObj JNaN (JArr [HKCR]) JUndefined)) = false \/
   In (to_str (get_hive (JObj JNaN (JArr [HKCR]) JUndefined))) HIVES) /\
  Registry (JObj JNaN (JArr [HKCR]) JUndefined) =
    Ok {| host := []; hive := HKCR; key := [] |}.
Proof.
  assert (H : truthy (get_hive (JObj JNaN (JArr [HKCR]) JUndefined)) = false \/
              In (to_str (get_hive (JObj JNaN (JArr [HKCR]) JUndefined))) HIVES)
    by (right; right; right; left; reflexivity).
  split; [exact H|].
  exact (proj1 Registry_defaults (JObj JNaN (JArr [HKCR]) JUndefined) H).
Defined.

Example Registry_falsy_fields :
  Registry (JObj JNull (JNum 0 eq_refl) JNaN) = Ok {| host := []; hive := HKLM; key := [] |} /\
  Registry (JObj (JStr []) (JBool false) JUndefined) =
    Ok {| host := []; hive := HKLM; key := [] |} /\
  Registry JNull = Ok {| host := []; hive := HKLM; key := [] |} /\
  Registry (JStr (lit "HKCU")) = Ok {| host := []; hive := HKLM; key := [] |}.
Proof. repeat split; vm_compute; reflexivity. Qed.

Example Registry_coerced_fields :
  Registry (JObj (JNum 42 eq_refl) (JStr HKCU) (JBool true)) =
    Ok {| host := lit "42"; hive := HKCU; key := lit "true" |} /\
  Registry (JObj JUndefined (JBool true) JUndefined) =
    Throw (Error (lit "illegal hive specified.")).
Proof. split; vm_compute; reflexivity. Qed.

(** ** The preprocessing of the captured text *)

Lemma fold_push_numbered ls : forall items n,
  fold_left push_numbered ls (items, n) =
    (items ++ (if Nat.eqb n 0 then tl (filter nonempty (map trim ls))
               else filter nonempty (map trim ls)),
     n + List.length (filter nonempty (map trim ls))).
Proof.
  induction ls as [|l ls IH]; intros items n; cbn [fold_left map filter].
  - destruct (Nat.eqb n 0); simpl; rewrite app_nil_r, Nat.add_0_r; reflexivity.
  - unfold push_numbered at 2.
    change (Nat.ltb 0 (List.length (trim l))) with (nonempty (trim l)).
    destruct (nonempty (trim l)).
    + rewrite IH. cbn [Nat.eqb tl List.length]. destruct (Nat.eqb n 0); cbn [negb].
      * f_equal. lia.
      * rewrite <- app_assoc. cbn [app]. f_equal. lia.
    + apply IH.
Qed.

Lemma fold_push_nonempty ls : forall items,
  fold_left push_nonempty ls items = items ++ filter nonempty (map trim ls).
Proof.
  induction ls as [|l ls IH]; intros items; cbn [fold_left map filter].
  - now rewrite app_nil_r.
  - unfold push_nonempty at 2.
    change (Nat.ltb 0 (List.length (trim l))) with (nonempty (trim l)).
    destruct (nonempty (trim l)).
    + rewrite IH, <- app_assoc. reflexivity.
    + apply IH.
Qed.

(** The loop of [values] and [get] keeps the retained lines but the first;
    the loop of [keys] keeps them all. *)
Lemma items_numbered_retained buffer :
  items_numbered buffer = tl (retained buffer).
Proof. unfold items_numbered, retained. now rewrite fold_push_numbered. Qed.

Lemma items_all_retained buffer : items_all buffer = retained buffer.
Proof. unfold items_all, retained. now rewrite fold_push_nonempty. Qed.

(** ** Item extraction *)

Lemma item_of_match_exec self line mt :
  exec ITEM_PATTERN line = Some mt ->
  exists n t v,
    mt = [Some line; Some n; Some t; Some v] /\ In t REG_TYPES /\
    item_of_match self mt =
      Ok (RegistryItem (host self) (hive self) (key self) (trim n) (trim t) v).
Proof.
  intros H.
  apply exec_ITEM_PATTERN in H as (n & sp & t & ws & v & -> & _ & _ & _ & _ & Ht & _).
  exists n, t, v. repeat split; auto.
Qed.

Lemma line_records_match self line mt :
  exec ITEM_PATTERN line = Some mt ->
  exists it, item_of_match self mt = Ok it /\ line_records self line = [it].
Proof.
  intros H. unfold line_records. rewrite H.
  destruct (@item_of_match_exec self _ _ H) as (n & t & v & _ & _ & ->).
  eexists. split; reflexivity.
Qed.

Lemma line_records_no_match self line :
  test ITEM_PATTERN line = false -> line_records self line = [].
Proof.
  unfold test, line_records. destruct (exec ITEM_PATTERN line); [discriminate | reflexivity].
Qed.

Lemma trim_REG_TYPES t : In t REG_TYPES -> trim t = t.
Proof.
  unfold REG_TYPES. intros H.
  repeat (destruct H as [<-|H]; [vm_compute; reflexivity|]). contradiction.
Qed.

(** The record of a matching line: host, hive and key of the queried
    Registry, the trimmed first group as name, a type of REG_TYPES, the
    third group as value. *)
Lemma line_records_fields self line it :
  In it (line_records self line) ->
  exists n t v,
    exec ITEM_PATTERN line = Some [Some line; Some n; Some t; Some v] /\
    In t REG_TYPES /\
    it = RegistryItem (host self) (hive self) (key self) (trim n) t v.
Proof.
  unfold line_records.
  destruct (exec ITEM_PATTERN line) as [mt|] eqn:E; [|contradiction].
  destruct (@item_of_match_exec self _ _ E) as (n & t & v & -> & Ht & ->).
  intros [<-|[]]. exists n, t, v. rewrite (trim_REG_TYPES t Ht). auto.
Qed.

Lemma values_item_records self result item :
  values_item self result item = Ok (result ++ line_records self item).
Proof.
  unfold values_item.
  destruct (exec ITEM_PATTERN item) as [mt|] eqn:E.
  - destruct (@line_records_match self _ _ E) as (it & -> & ->). reflexivity.
  - unfold line_records. rewrite E. now rewrite app_nil_r.
Qed.

Lemma foldM_values_item self items : forall result,
  foldM (values_item self) items result =
    Ok (result ++ flat_map (line_records self) items).
Proof.
  induction items as [|l items IH]; intros result; simpl.
  - now rewrite app_nil_r.
  - rewrite values_item_records. simpl. rewrite IH, <- app_assoc. reflexivity.
Qed.

(** The 'close' handler of [values] never throws: on exit code 0 it hands
    the records of the matching lines, in the order of the text. *)
Lemma values_close_eq self code buffer :
  values_close self code buffer =
    Ok (if nonzero code then Cb (Some (exit_error code)) None
        else Cb None (Some (flat_map (line_records self) (tl (retained buffer))))).
Proof.
  unfold values_close. destruct (nonzero code); [reflexivity|].
  rewrite foldM_values_item, items_numbered_retained. reflexivity.
Qed.

Lemma exec_ITEM_PATTERN_empty : exec ITEM_PATTERN [] = None.
Proof. vm_compute. reflexivity. Qed.


Lemma split_prefix sep e rest :
  ~ In sep e -> split sep (e ++ sep :: rest) = e :: split sep rest.
Proof.
  induction e as [|x e IH]; intros H; simpl.
  - replace (char_eqb sep sep) with true by (symmetry; now apply char_eqb_eq).
    reflexivity.
  - destruct (char_eqb x sep) eqn:Ex.
    + apply char_eqb_eq in Ex. subst x. exfalso. apply H. now left.
    + rewrite IH; [reflexivity|]. intros Hin. apply H. now right.
Qed.

Lemma nonempty_true l : l <> [] -> nonempty l = true.
Proof. destruct l; [congruence | reflexivity]. Qed.

Lemma line_records_sample self :
  line_records self (lit "Sample    REG_SZ    hello world") =
    [RegistryItem (host self) (hive self) (key self)
       (lit "Sample") (lit "REG_SZ") (lit "hello world")].
Proof. vm_compute. reflexivity. Qed.

(** C7: for every echoed-path line [e] (one line, not blank), the text made
    of [e], a blank line and the value line
    [Sample    REG_SZ    hello world] gives exactly one record, of name
    [Sample], type [REG_SZ] and value [hello world], the value keeping its
    inner blanks.  For every text, the handler throws nothing and reports no
    error: its result is the records of the matching lines, in order, and a
    line that does not match ITEM_PATTERN gives no record. *)
Theorem values_parse (self : registry) (e : str) :
  ~ In newline e ->
  trim e <> [] ->
  values_close self (Some 0%Z)
    (e ++ newline :: newline :: lit "Sample    REG_SZ    hello world") =
    Ok (Cb None
          (Some [RegistryItem (host self) (hive self) (key self)
                   (lit "Sample") (lit "REG_SZ") (lit "hello world")])) /\
  (forall buffer,
      values_close self (Some 0%Z) buffer =
        Ok (Cb None
              (Some (flat_map (line_records self) (tl (retained buffer)))))) /\
  (forall line, test ITEM_PATTERN line = false -> line_records self line = []).
Proof.
  intros Hnl He.
  assert (Hall : forall buffer,
             values_close self (Some 0%Z) buffer =
               Ok (Cb None
                     (Some (flat_map (line_records self) (tl (retained buffer)))))).
  { intros buffer. now rewrite values_close_eq. }
  split; [|split; [exact Hall | apply line_records_no_match]].
  rewrite Hall. do 3 f_equal.
  unfold retained. rewrite split_prefix by assumption.
  replace (split newline (newline :: lit "Sample    REG_SZ    hello world"))
    with [[]; lit "Sample    REG_SZ    hello world"] by (vm_compute; reflexivity).
  cbn [map filter]. rewrite (nonempty_true _ He).
  replace (trim []) with (@nil char) by reflexivity.
  replace (trim (lit "Sample    REG_SZ    hello world"))
    with (lit "Sample    REG_SZ    hello world") by (vm_compute; reflexivity).
  replace (nonempty []) with false by reflexivity.
  replace (nonempty (lit "Sample    REG_SZ    hello world")) with true
    by reflexivity.
  cbn [tl flat_map]. rewrite line_records_sample. reflexivity.
Qed.

Lemma values_parse_witness :
  ~ In newline (lit "HKEY_CURRENT_USER\Software\FrEsC\node-winreg") /\
  trim (lit "HKEY_CURRENT_USER\Software\FrEsC\node-winreg") <> [] /\
  values_close {| host := []; hive := HKCU; key := lit "\Software\FrEsC\node-winreg" |}
    (Some 0%Z)
    (lit "HKEY_CURRENT_USER\Software\FrEsC\node-winreg" ++
     newline :: newline :: lit "Sample    REG_SZ    hello world") =
    Ok (Cb None
          (Some [RegistryItem [] HKCU (lit "\Software\FrEsC\node-winreg")
                   (lit "Sample") (lit "REG_SZ") (lit "hello world")])).
Proof.
  assert (H1 : ~ In newline (lit "HKEY_CURRENT_USER\Software\FrEsC\node-winreg")).
  { vm_compute. intuition discriminate. }
  assert (H2 : trim (lit "HKEY_CURRENT_USER\Software\FrEsC\node-winreg") <> []).
  { vm_compute. discriminate. }
  split; [exact H1|]. split; [exact H2|].
  exact (proj1 (@values_parse
                  {| host := []; hive := HKCU;
                     key := lit "\Software\FrEsC\node-winreg" |}
                  (lit "HKEY_CURRENT_USER\Software\FrEsC\node-winreg") H1 H2)).
Defined.

(** ** [keys] *)

Lemma long_hive_prefix L1 L2 a b :
  In L1 LONG_HIVES -> In L2 LONG_HIVES -> L1 ++ a = L2 ++ b -> L1 = L2 /\ a = b.
Proof.
  unfold LONG_HIVES. intros H1 H2 E.
  repeat (destruct H1 as [<-|H1]; [|]); try contradiction;
    repeat (destruct H2 as [<-|H2]; [|]); try contradiction;
    first [ split; [reflexivity | exact (app_inv_head _ _ _ E)]
          | exfalso; cbv in E; discriminate E ].
Qed.

Lemma keys_item_entries self result item :
  In (hive self) HIVES ->
  keys_item self result item = Ok (result ++ child_entries self item).
Proof.
  intros Hv. unfold keys_item, child_entries.
  destruct (exec PATH_PATTERN item) as [mt|]; [|now rewrite app_nil_r].
  destruct (group 2 mt) as [key0|]; [|now rewrite app_nil_r].
  change (Nat.ltb 0 (List.length key0)) with (nonempty key0).
  destruct (nonempty key0 && negb (str_eqb key0 (key self)))%bool;
    [|now rewrite app_nil_r].
  change (JObj (JStr (host self)) (JStr (hive self)) (JStr key0))
    with (options_of (host self) (hive self) key0).
  rewrite (Registry_options_of (host self) (hive self) key0 Hv). reflexivity.
Qed.

Lemma foldM_keys_item self items :
  In (hive self) HIVES ->
  forall result,
    foldM (keys_item self) items result =
      Ok (result ++ flat_map (child_entries self) items).
Proof.
  intros Hv. induction items as [|l items IH]; intros result; simpl.
  - now rewrite app_nil_r.
  - rewrite keys_item_entries by assumption. simpl.
    rewrite IH, <- app_assoc. reflexivity.
Qed.

Lemma keys_end_eq self buffer :
  In (hive self) HIVES ->
  keys_end self buffer =
    Ok (Cb None (Some (flat_map (child_entries self) (retained buffer)))).
Proof.
  intros Hv. unfold keys_end.
  rewrite foldM_keys_item, items_all_retained by assumption. reflexivity.
Qed.

Lemma child_entries_inherit self line r :
  In r (child_entries self line) ->
  key r <> key self /\ host r = host self /\ hive r = hive self.
Proof.
  unfold child_entries.
  destruct (exec PATH_PATTERN line) as [mt|]; [|contradiction].
  destruct (group 2 mt) as [key0|]; [|contradiction].
  destruct (nonempty key0); [|contradiction].
  destruct (str_eqb key0 (key self)) eqn:E; [contradiction|].
  apply str_eqb_neq in E. simpl. intros [<-|[]]. auto.
Qed.

Lemma child_entries_echo self L :
  In L LONG_HIVES -> child_entries self (L ++ key self) = [].
Proof.
  intros HL. unfold child_entries.
  destruct (exec PATH_PATTERN (L ++ key self)) as [mt|] eqn:E; [|reflexivity].
  apply exec_PATH_PATTERN in E as (L' & rest & HL' & E & _ & ->).
  destruct (long_hive_prefix _ _ _ _ HL HL' E) as (_ & <-).
  cbn [group nth]. rewrite str_eqb_refl, andb_false_r. reflexivity.
Qed.

(** C6: for every Registry the constructor returns and every captured text,
    the 'end' handler of [keys] hands, with no error, a list in which no
    entry has the key of the queried Registry and every entry has its host
    and its hive; the list is made of what each retained line gives, and a
    line that is a long hive name followed by the queried key gives
    nothing. *)
Theorem keys_self_exclusion (options : jsval) (self : registry) (buffer : str) :
  Registry options = Ok self ->
  exists result,
    keys_end self buffer = Ok (Cb None (Some result)) /\
    Forall (fun r => key r <> key self /\
                     host r = host self /\ hive r = hive self) result /\
    result = flat_map (child_entries self) (retained buffer) /\
    (forall L, In L LONG_HIVES -> child_entries self (L ++ key self) = []).
Proof.
  intros Hself. apply Registry_ok_hive in Hself.
  exists (flat_map (child_entries self) (retained buffer)).
  split; [now apply keys_end_eq|].
  split; [|split; [reflexivity | apply child_entries_echo]].
  apply Forall_forall. intros r Hr.
  apply in_flat_map in Hr as (line & _ & Hr).
  exact (child_entries_inherit _ _ _ Hr).
Qed.

Lemma keys_self_exclusion_witness :
  Registry (options_of [] HKCU (lit "\Software")) =
    Ok {| host := []; hive := HKCU; key := lit "\Software" |} /\
  exists result,
    keys_end {| host := []; hive := HKCU; key := lit "\Software" |}
      (lit "HKEY_CURRENT_USER\Software") = Ok (Cb None (Some result)) /\
    Forall (fun r => key r <> lit "\Software" /\
                     host r = [] /\ hive r = HKCU) result /\
    result = flat_map (child_entries {| host := []; hive := HKCU;
                                        key := lit "\Software" |})
               (retained (lit "HKEY_CURRENT_USER\Software")) /\
    (forall L, In L LONG_HIVES ->
               child_entries {| host := []; hive := HKCU; key := lit "\Software" |}
                 (L ++ lit "\Software") = []).
Proof.
  assert (H : Registry (options_of [] HKCU (lit "\Software")) =
              Ok {| host := []; hive := HKCU; key := lit "\Software" |})
    by (vm_compute; reflexivity).
  split; [exact H|].
  exact (@keys_self_exclusion (options_of [] HKCU (lit "\Software"))
           {| host := []; hive := HKCU; key := lit "\Software" |}
           (lit "HKEY_CURRENT_USER\Software") H).
Defined.

Example keys_listing :
  keys_end {| host := []; hive := HKCU; key := lit "\Software" |}
    (lit "HKEY_CURRENT_USER\Software" ++ newline ::
     lit "    Sample    REG_SZ    hello" ++ newline :: newline ::
     lit "HKEY_CURRENT_USER\Software\FrEsC" ++ [newline]) =
    Ok (Cb None (Some [{| host := []; hive := HKCU;
                          key := lit "\Software\FrEsC" |}])).
Proof. vm_compute. reflexivity. Qed.

(** ** The first retained line *)

(** C3 as stated fails for [keys]: with the two lines
    [HKEY_CURRENT_USER\Software\One] and [HKEY_CURRENT_USER\Software\Two]
    captured for the key [\Software] of HKCU, both lines reach the
    extraction and both give an entry; had the first retained line been
    discarded, the result would hold the second entry alone. *)
Lemma keys_keeps_first_line :
  let self := {| host := []; hive := HKCU; key := lit "\Software" |} in
  let buffer := lit "HKEY_CURRENT_USER\Software\One" ++ newline ::
                lit "HKEY_CURRENT_USER\Software\Two" in
  items_all buffer = [lit "HKEY_CURRENT_USER\Software\One";
                      lit "HKEY_CURRENT_USER\Software\Two"] /\
  items_all buffer <> tl (retained buffer) /\
  keys_end self buffer =
    Ok (Cb None (Some [{| host := []; hive := HKCU; key := lit "\Software\One" |};
                       {| host := []; hive := HKCU; key := lit "\Software\Two" |}])) /\
  keys_end self buffer <>
    (result <- foldM (keys_item self) (tl (retained buffer)) [] ;;
     Ok (Cb None (Some result))).
Proof.
  cbv zeta. repeat split; try (vm_compute; reflexivity);
    vm_compute; discriminate.
Qed.

(** C3, amended: for every captured text, the items [values] and [get]
    extract from are the retained lines (split at newlines, trimmed, empty
    ones dropped) without the first; the items [keys] extracts from are all
    the retained lines, the first included. *)
Theorem first_line_discarded (self : registry) (buffer : str) :
  items_numbered buffer = tl (retained buffer) /\
  items_all buffer = retained buffer /\
  values_close self (Some 0%Z) buffer =
    (result <- foldM (values_item self) (tl (retained buffer)) [] ;;
     Ok (Cb None (Some result))) /\
  get_close self (Some 0%Z) buffer =
    match exec ITEM_PATTERN (hd [] (tl (retained buffer))) with
    | Some mt => it <- item_of_match self mt ;; Ok (Cb None (Some it))
    | None => Ok (Cb None None)
    end /\
  keys_end self buffer =
    (result <- foldM (keys_item self) (retained buffer) [] ;;
     Ok (Cb None (Some result))).
Proof.
  split; [apply items_numbered_retained|].
  split; [apply items_all_retained|].
  unfold values_close, get_close, keys_end.
  rewrite items_numbered_retained, items_all_retained.
  cbn [nonzero Z.eqb negb].
  split; [reflexivity|]. split; [|reflexivity].
  destruct (tl (retained buffer)); reflexivity.
Qed.

(** ** [get] *)

(** C4 as stated fails: after the echoed path, the text holds a line that
    does not match ITEM_PATTERN and then a value line; [get] hands null,
    where the first retained line that matches gives the record of
    [Sample]. *)
Lemma get_reads_one_line :
  let self := {| host := []; hive := HKCU; key := lit "\Software" |} in
  let buffer := lit "HKEY_CURRENT_USER\Software" ++ newline ::
                lit "    (Default)    REG_SZ" ++ newline ::
                lit "    Sample    REG_SZ    hello" in
  get_close self (Some 0%Z) buffer = Ok (Cb None None) /\
  first_matched_record self buffer =
    Some (RegistryItem [] HKCU (lit "\Software")
            (lit "Sample") (lit "REG_SZ") (lit "hello")) /\
  get_close self (Some 0%Z) buffer <>
    Ok (Cb None (first_matched_record self buffer)).
Proof.
  cbv zeta. repeat split; try (vm_compute; reflexivity).
  vm_compute. discriminate.
Qed.

(** C4, amended: on exit code 0, [get] hands the record parsed from the
    first retained line after the echoed path when that line matches the
    value-line grammar, and null otherwise (no such line, or a first line
    that does not match, whatever the later lines); the error argument is
    null in both cases.  On any other exit code it hands the error of the
    exit code and null.  The handler throws nothing. *)
Theorem get_first_line (self : registry) (code : option Z) (buffer : str) :
  get_close self code buffer =
    Ok (if nonzero code then Cb (Some (exit_error code)) None
        else Cb None
               (hd_error (line_records self (hd [] (tl (retained buffer)))))).
Proof.
  unfold get_close. destruct (nonzero code); [reflexivity|].
  rewrite items_numbered_retained.
  destruct (tl (retained buffer)) as [|l ls]; cbn [hd].
  - rewrite exec_ITEM_PATTERN_empty. unfold line_records.
    rewrite exec_ITEM_PATTERN_empty. reflexivity.
  - destruct (exec ITEM_PATTERN l) as [mt|] eqn:E.
    + destruct (@line_records_match self _ _ E) as (it & -> & ->). reflexivity.
    + unfold line_records. rewrite E. reflexivity.
Qed.

(** ** [keyExists] *)

Lemma keyExists_close_eq self code buffer :
  keyExists_close self code buffer =
    Ok (if nonzero code then Cb (Some (exit_error code)) false
        else Cb None true).
Proof.
  unfold keyExists_close. rewrite values_close_eq.
  destruct (nonzero code); reflexivity.
Qed.

(** C5, the failing input: REG exits with code 1 for an absent key;
    [keyExists] then hands [false] together with the error of [values], not
    with a null error. *)
Theorem keyExists_reports_exit_error :
  keyExists_close {| host := []; hive := HKCU; key := lit "\Software\Absent" |}
    (Some 1%Z) [] =
    Ok (Cb (Some (Error (lit "process exited with code 1"))) false).
Proof. vm_compute. reflexivity. Qed.

(** ** [set] *)

(** The argument vector of [set] as a function of what the [path] getter
    returns. *)
Lemma set_argv (global_host : option jsval) (self : registry)
  (name type value : str) :
  (~ In type REG_TYPES ->
   set global_host self name type value true =
     Throw (Error (lit "illegal type specified."))) /\
  (In type REG_TYPES ->
   forall p, path global_host self = Ok p ->
   set global_host self name type value true =
     Ok (Spawn (lit "REG")
           ([lit "ADD"; p] ++
            (if str_eqb name [] then [lit "/ve"] else [lit "/v"; name]) ++
            [lit "/t"; type; lit "/d"; value; lit "/f"]))).
Proof.
  unfold set. cbn [negb]. split.
  - intros H. apply indexOf_eqb_not_In in H. now rewrite H.
  - intros H p Hp. apply indexOf_eqb_In in H. rewrite H, Hp. cbn [bind].
    destruct (str_eqb name []); reflexivity.
Qed.

Lemma set_argv_witness :
  let self := {| host := []; hive := HKCU; key := lit "\Software\FrEsC" |} in
  set None self (lit "Sample") (lit "REG_TEXT") (lit "hello") true =
    Throw (Error (lit "illegal type specified.")) /\
  set None self (lit "Sample") REG_SZ (lit "hello") true =
    Ok (Spawn (lit "REG")
          [lit "ADD"; lit "HKCU\Software\FrEsC"; lit "/v"; lit "Sample";
           lit "/t"; REG_SZ; lit "/d"; lit "hello"; lit "/f"]) /\
  set None self [] REG_DWORD (lit "1") true =
    Ok (Spawn (lit "REG")
          [lit "ADD"; lit "HKCU\Software\FrEsC"; lit "/ve";
           lit "/t"; REG_DWORD; lit "/d"; lit "1"; lit "/f"]).
Proof.
  cbv zeta. split; [|split].
  - apply (proj1 (@set_argv None _ (lit "Sample") (lit "REG_TEXT") (lit "hello"))).
    vm_compute. intuition discriminate.
  - apply (proj2 (@set_argv None
                    {| host := []; hive := HKCU; key := lit "\Software\FrEsC" |}
                    (lit "Sample") REG_SZ (lit "hello"))
             (or_introl eq_refl) (lit "HKCU\Software\FrEsC") eq_refl).
  - apply (proj2 (@set_argv None
                    {| host := []; hive := HKCU; key := lit "\Software\FrEsC" |}
                    [] REG_DWORD (lit "1"))
             (or_intror (or_intror (or_intror (or_introl eq_refl))))
             (lit "HKCU\Software\FrEsC") eq_refl).
Defined.

Lemma indexOf_existsb a x :
  Z.eqb (indexOf a x) (-1) = negb (existsb (fun y => str_eqb y x) a).
Proof.
  destruct (existsb (fun y => str_eqb y x) a) eqn:E; cbn [negb].
  - apply indexOf_eqb_In. apply existsb_exists in E as (y & Hy & E).
    apply str_eqb_eq in E. now subst.
  - apply indexOf_eqb_not_In. intros Hin.
    assert (H : existsb (fun y => str_eqb y x) a = true)
      by (apply existsb_exists; exists x; split; [exact Hin | apply str_eqb_refl]).
    congruence.
Qed.

(** C8, with its failing input: for every Registry and every argument,
    [set] called with a callback throws [illegal type specified.] when the
    type is not in REG_TYPES, before it reads [path] or spawns anything;
    with a type of REG_TYPES and an empty host it spawns REG with ADD, the
    hive followed by the key, then [/ve] for the empty name or [/v] and the
    name, then [/t], the type, [/d], the value and [/f]; but with a type of
    REG_TYPES and a non-empty host it spawns nothing: reading [path] raises
    the ReferenceError of the undeclared [host].  So for the constructed
    Registry of host [server], hive HKLM and key [\Software],
    [set('Sample', 'REG_SZ', 'hello', cb)] throws, where the claim has it
    spawn REG. *)
Theorem set_with_host_raises (self : registry) (name type value : str) :
  set None self name type value true =
    (if existsb (fun t => str_eqb t type) REG_TYPES
     then
       match host self with
       | [] =>
           Ok (Spawn (lit "REG")
                 ([lit "ADD"; hive self ++ key self] ++
                  (if str_eqb name [] then [lit "/ve"] else [lit "/v"; name]) ++
                  [lit "/t"; type; lit "/d"; value; lit "/f"]))
       | _ :: _ => Throw (ReferenceError (lit "host is not defined"))
       end
     else Throw (Error (lit "illegal type specified."))) /\
  Registry (options_of (lit "server") HKLM (lit "\Software")) =
    Ok {| host := lit "server"; hive := HKLM; key := lit "\Software" |} /\
  set None {| host := lit "server"; hive := HKLM; key := lit "\Software" |}
    (lit "Sample") REG_SZ (lit "hello") true =
    Throw (ReferenceError (lit "host is not defined")) /\
  set None {| host := []; hive := HKLM; key := lit "\Software" |}
    (lit "Sample") REG_SZ (lit "hello") true =
    Ok (Spawn (lit "REG")
          [lit "ADD"; lit "HKLM\Software"; lit "/v"; lit "Sample";
           lit "/t"; lit "REG_SZ"; lit "/d"; lit "hello"; lit "/f"]).
Proof.
  split; [|repeat split; vm_compute; reflexivity].
  unfold set. cbn [negb]. rewrite indexOf_existsb.
  destruct (existsb (fun t => str_eqb t type) REG_TYPES); cbn [negb];
    [|reflexivity].
  unfold path, read_host. destruct (host self) as [|x h]; cbn [List.length Nat.eqb bind].
  - cbn [app]. destruct (str_eqb name []); reflexivity.
  - reflexivity.
Qed.

(** ** More on the constructor and on [parent] *)

(** X1: the constructor succeeds exactly when the hive, after defaulting and
    conversion to a string, is one of HIVES; the only error it ever throws
    is [illegal hive specified.]. *)
Theorem Registry_outcome (options : jsval) :
  ((exists r, Registry options = Ok r) <->
   In (to_str (js_or (get_hive options) (JStr HKLM))) HIVES) /\
  (forall e, Registry options = Throw e ->
             e = Error (lit "illegal hive specified.") /\
             ~ In (to_str (js_or (get_hive options) (JStr HKLM))) HIVES).
Proof.
  rewrite Registry_eq. cbv zeta.
  destruct (Z.eqb (indexOf HIVES (to_str (js_or (get_hive options) (JStr HKLM))))
              (-1)) eqn:E.
  - apply indexOf_eqb_not_In in E. split.
    + split; [intros (r & H); discriminate | tauto].
    + intros e H. injection H as <-. auto.
  - apply indexOf_eqb_In in E. split.
    + split; [auto | eauto].
    + intros e H. discriminate.
Qed.

(** X2: a Registry the constructor returned has a hive of HIVES, and the
    constructor applied to its own three fields returns it again. *)
Theorem Registry_idempotent (options : jsval) (r : registry) :
  Registry options = Ok r ->
  In (hive r) HIVES /\
  Registry (options_of (host r) (hive r) (key r)) = Ok r.
Proof.
  intros H. apply Registry_ok_hive in H. split; [exact H|].
  rewrite (Registry_options_of _ _ _ H). destruct r; reflexivity.
Qed.

Lemma Registry_idempotent_witness :
  Registry (JObj (JNum 42 eq_refl) JNull (JStr (lit "\Software"))) =
    Ok {| host := lit "42"; hive := HKLM; key := lit "\Software" |} /\
  In HKLM HIVES /\
  Registry (options_of (lit "42") HKLM (lit "\Software")) =
    Ok {| host := lit "42"; hive := HKLM; key := lit "\Software" |}.
Proof.
  assert (H : Registry (JObj (JNum 42 eq_refl) JNull (JStr (lit "\Software"))) =
              Ok {| host := lit "42"; hive := HKLM; key := lit "\Software" |})
    by (vm_compute; reflexivity).
  split; [exact H|].
  exact (Registry_idempotent (JObj (JNum 42 eq_refl) JNull (JStr (lit "\Software")))
           {| host := lit "42"; hive := HKLM; key := lit "\Software" |} H).
Defined.

Lemma lastIndexOf_from_range i last s c :
  lastIndexOf_from i last s c = last \/
  (i <= lastIndexOf_from i last s c < i + Z.of_nat (List.length s))%Z.
Proof.
  revert i last. induction s as [|x s IH]; intros i last; simpl List.length.
  - left. reflexivity.
  - cbn [lastIndexOf_from].
    destruct (IH (i + 1)%Z (if char_eqb x c then i else last)) as [E|E].
    + rewrite E. destruct (char_eqb x c); [right; lia | left; reflexivity].
    + right. lia.
Qed.

Lemma lastIndexOf_range s c :
  lastIndexOf s c = (-1)%Z \/
  (0 <= lastIndexOf s c < Z.of_nat (List.length s))%Z.
Proof. apply (lastIndexOf_from_range 0 (-1) s c). Qed.

(** The key of the parent is a strictly shorter prefix of the key, unless
    the key is empty. *)
Lemma parent_key_prefix r :
  In (hive r) HIVES ->
  exists p suffix,
    parent r = Ok p /\ host p = host r /\ hive p = hive r /\
    key r = key p ++ suffix /\ (key r <> [] -> suffix <> []).
Proof.
  intros Hv. rewrite (parent_eq r Hv).
  destruct (lastIndexOf_range (key r) backslash) as [E|E].
  - rewrite E. cbn [Z.eqb]. eexists. exists (key r). cbn [host hive key].
    repeat split; auto.
  - replace (Z.eqb (lastIndexOf (key r) backslash) (-1)) with false
      by (symmetry; apply Z.eqb_neq; lia).
    eexists.
    exists (skipn (Z.to_nat (lastIndexOf (key r) backslash)) (key r)).
    cbn [host hive key]. unfold substring0.
    split; [reflexivity|]. split; [reflexivity|]. split; [reflexivity|]. split.
    + symmetry. apply firstn_skipn.
    + intros _ Hs.
      assert (Hl : List.length (skipn (Z.to_nat (lastIndexOf (key r) backslash))
                                  (key r)) = 0) by now rewrite Hs.
      rewrite length_skipn in Hl. lia.
Qed.

(** X3: for every Registry the constructor returned, reading [parent]
    succeeds; the parent has the same host and hive, its key is a prefix of
    the key, and a strictly shorter one unless the key is empty. *)
Theorem parent_shortens (options : jsval) (r : registry) :
  Registry options = Ok r ->
  exists p suffix,
    parent r = Ok p /\ host p = host r /\ hive p = hive r /\
    key r = key p ++ suffix /\ (key r <> [] -> suffix <> []).
Proof. intros H. apply parent_key_prefix. exact (Registry_ok_hive _ _ H). Qed.

Lemma parent_shortens_witness :
  Registry (options_of [] HKCU (lit "\Software\FrEsC")) =
    Ok {| host := []; hive := HKCU; key := lit "\Software\FrEsC" |} /\
  exists p suffix,
    parent {| host := []; hive := HKCU; key := lit "\Software\FrEsC" |} = Ok p /\
    host p = [] /\ hive p = HKCU /\
    lit "\Software\FrEsC" = key p ++ suffix /\
    (lit "\Software\FrEsC" <> [] -> suffix <> []).
Proof.
  assert (H : Registry (options_of [] HKCU (lit "\Software\FrEsC")) =
              Ok {| host := []; hive := HKCU; key := lit "\Software\FrEsC" |})
    by (vm_compute; reflexivity).
  split; [exact H|].
  exact (parent_shortens (options_of [] HKCU (lit "\Software\FrEsC"))
           {| host := []; hive := HKCU; key := lit "\Software\FrEsC" |} H).
Defined.

Lemma ancestor_root r : forall n,
  In (hive r) HIVES ->
  List.length (key r) <= n ->
  ancestor n r = Ok {| host := host r; hive := hive r; key := [] |}.
Proof.
  intros n. revert r. induction n as [|n IH]; intros r Hv Hn.
  - destruct r as [h v k]. cbn [key] in Hn. destruct k; [reflexivity|].
    simpl in Hn. lia.
  - cbn [ancestor].
    destruct (parent_key_prefix r Hv) as (p & suffix & -> & Hh & Hhv & Hk & Hs).
    cbn [bind]. rewrite IH.
    + now rewrite Hh, Hhv.
    + now rewrite Hhv.
    + destruct (key r) as [|x k] eqn:Ek.
      * symmetry in Hk. apply app_eq_nil in Hk as (-> & _). simpl. lia.
      * assert (Hs' : suffix <> []) by (apply Hs; discriminate).
        assert (Hl : List.length (x :: k) = List.length (key p ++ suffix))
          by now rewrite Hk.
        rewrite length_app in Hl. simpl in Hl, Hn.
        destruct suffix; [congruence|]. simpl in Hl. lia.
Qed.

(** X4: for every Registry the constructor returned, reading [parent] as
    many times as the key has code units, or more, ends at the hive root:
    the Registry of the same host and hive with the empty key. *)
Theorem ancestor_reaches_root (options : jsval) (r : registry) (n : nat) :
  Registry options = Ok r ->
  List.length (key r) <= n ->
  ancestor n r = Ok {| host := host r; hive := hive r; key := [] |}.
Proof. intros H. apply ancestor_root. exact (Registry_ok_hive _ _ H). Qed.

Lemma ancestor_reaches_root_witness :
  Registry (options_of [] HKCU (lit "\a\b")) =
    Ok {| host := []; hive := HKCU; key := lit "\a\b" |} /\
  List.length (lit "\a\b") <= 4 /\
  ancestor 4 {| host := []; hive := HKCU; key := lit "\a\b" |} =
    Ok {| host := []; hive := HKCU; key := [] |}.
Proof.
  assert (H : Registry (options_of [] HKCU (lit "\a\b")) =
              Ok {| host := []; hive := HKCU; key := lit "\a\b" |})
    by (vm_compute; reflexivity).
  assert (Hn : List.length (lit "\a\b") <= 4) by (vm_compute; lia).
  split; [exact H|]. split; [exact Hn|].
  exact (ancestor_reaches_root (options_of [] HKCU (lit "\a\b"))
           {| host := []; hive := HKCU; key := lit "\a\b" |} 4 H Hn).
Defined.

Lemma key_segment_no_backslash seg :
  forallb key_char seg = true -> ~ In backslash seg.
Proof.
  intros H Hin. rewrite forallb_forall in H. specialize (H _ Hin).
  vm_compute in H. discriminate.
Qed.

Lemma key_grammar_last k :
  key_grammar k -> k <> [] ->
  exists p seg,
    k = p ++ backslash :: seg /\ seg <> [] /\
    forallb key_char seg = true /\ key_grammar p.
Proof.
  induction 1 as [|seg rest Hne Hseg Hrest IH]; intros Hk; [congruence|].
  destruct rest as [|x rest].
  - exists [], seg. rewrite app_nil_r. repeat split; auto.
  - destruct IH as (p & seg' & E & Hne' & Hseg' & Hp); [discriminate|].
    exists (backslash :: seg ++ p), seg'. rewrite E.
    repeat split; auto.
    + simpl. now rewrite <- app_assoc.
    + now constructor.
Qed.

(** X5: for a Registry the constructor returned whose key is of the key
    grammar, the key of the parent is of the key grammar too, and a
    non-empty key is the key of the parent followed by a backslash and one
    non-empty segment of key characters. *)
Theorem parent_key_grammar (options : jsval) (r : registry) :
  Registry options = Ok r ->
  key_grammar (key r) ->
  exists p,
    parent r = Ok p /\ host p = host r /\ hive p = hive r /\
    key_grammar (key p) /\
    (key r <> [] ->
     exists seg, seg <> [] /\ forallb key_char seg = true /\
                 key r = key p ++ backslash :: seg).
Proof.
  intros H Hk. apply Registry_ok_hive in H.
  rewrite (parent_eq r H). eexists. cbn [host hive key].
  split; [reflexivity|]. split; [reflexivity|]. split; [reflexivity|].
  cbn [key].
  assert (Hcases : key r = [] \/ key r <> [])
    by (destruct (key r); [left; reflexivity | right; discriminate]).
  destruct Hcases as [Ek|Ek].
  - rewrite Ek. split; [constructor | congruence].
  - destruct (key_grammar_last _ Hk Ek) as (p & seg & E & Hne & Hseg & Hp).
    match goal with
    | |- key_grammar ?cut /\ _ => assert (Hcut : cut = p)
    end.
    { rewrite E, lastIndexOf_last by now apply key_segment_no_backslash.
      replace (Z.eqb (Z.of_nat (List.length p)) (-1)) with false
        by (symmetry; apply Z.eqb_neq; lia).
      unfold substring0. rewrite Nat2Z.id.
      now rewrite firstn_app, Nat.sub_diag, firstn_all, firstn_O, app_nil_r. }
    rewrite Hcut. split; [exact Hp|]. intros _. exists seg. auto.
Qed.

Lemma parent_key_grammar_witness :
  Registry (options_of [] HKCU (lit "\Software\FrEsC")) =
    Ok {| host := []; hive := HKCU; key := lit "\Software\FrEsC" |} /\
  key_grammar (lit "\Software\FrEsC") /\
  exists p,
    parent {| host := []; hive := HKCU; key := lit "\Software\FrEsC" |} = Ok p /\
    host p = [] /\ hive p = HKCU /\ key_grammar (key p) /\
    (lit "\Software\FrEsC" <> [] ->
     exists seg, seg <> [] /\ forallb key_char seg = true /\
                 lit "\Software\FrEsC" = key p ++ backslash :: seg).
Proof.
  assert (H : Registry (options_of [] HKCU (lit "\Software\FrEsC")) =
              Ok {| host := []; hive := HKCU; key := lit "\Software\FrEsC" |})
    by (vm_compute; reflexivity).
  assert (Hk : key_grammar (lit "\Software\FrEsC")).
  { change (lit "\Software\FrEsC")
      with (backslash :: lit "Software" ++ (backslash :: lit "FrEsC" ++ [])).
    constructor; [discriminate | reflexivity|].
    constructor; [discriminate | reflexivity | constructor]. }
  split; [exact H|]. split; [exact Hk|].
  exact (parent_key_grammar (options_of [] HKCU (lit "\Software\FrEsC"))
           {| host := []; hive := HKCU; key := lit "\Software\FrEsC" |} H Hk).
Defined.

(** ** The existence checks and the callbacks of [keys] *)

Lemma get_close_records self code buffer :
  get_close self code buffer =
    Ok (if nonzero code then Cb (Some (exit_error code)) None
        else Cb None
               (hd_error (line_records self (hd [] (tl (retained buffer)))))).
Proof.
  unfold get_close. destruct (nonzero code); [reflexivity|].
  rewrite items_numbered_retained.
  destruct (tl (retained buffer)) as [|l ls]; cbn [hd].
  - rewrite exec_ITEM_PATTERN_empty. unfold line_records.
    rewrite exec_ITEM_PATTERN_empty. reflexivity.
  - destruct (exec ITEM_PATTERN l) as [mt|] eqn:E.
    + destruct (line_records_match self _ _ E) as (it & -> & ->). reflexivity.
    + unfold line_records. rewrite E. reflexivity.
Qed.

(** X6: [valueExists], like [keyExists], answers from the exit code alone:
    for every captured text it hands [true] with a null error when REG exits
    with code 0, also when [get] found no value line, and [false] with the
    exit-code error otherwise. *)
Theorem valueExists_from_exit_code (self : registry) (code : option Z)
  (buffer : str) :
  valueExists_close self code buffer =
    Ok (if nonzero code then Cb (Some (exit_error code)) false
        else Cb None true) /\
  valueExists_close self code buffer = keyExists_close self code buffer /\
  valueExists_close self (Some 0%Z) [] = Ok (Cb None true) /\
  get_close self (Some 0%Z) [] = Ok (Cb None None).
Proof.
  assert (H : valueExists_close self code buffer =
              Ok (if nonzero code then Cb (Some (exit_error code)) false
                  else Cb None true)).
  { unfold valueExists_close. rewrite get_close_records.
    destruct (nonzero code); reflexivity. }
  split; [exact H|]. split; [now rewrite H, keyExists_close_eq|].
  split; vm_compute; reflexivity.
Qed.

(** X7: for a Registry the constructor returned, the callback of [keys] is
    called once, with a null error and the list of entries, when REG exits
    with code 0, and twice when it exits otherwise: first by the 'end'
    handler with a null error and the entries parsed from the text, then by
    the 'close' handler with the exit-code error. *)
Theorem keys_calls_twice_on_failure (options : jsval) (self : registry)
  (code : option Z) (buffer : str) :
  Registry options = Ok self ->
  keys_calls self code buffer =
    Ok (Cb None (Some (flat_map (child_entries self) (retained buffer))) ::
        (if nonzero code then [Cb (Some (exit_error code)) None] else [])).
Proof.
  intros H. apply Registry_ok_hive in H.
  unfold keys_calls, keys_close. rewrite (keys_end_eq self buffer H).
  cbn [bind]. destruct (nonzero code); reflexivity.
Qed.

Lemma keys_calls_twice_on_failure_witness :
  Registry (options_of [] HKCU (lit "\Absent")) =
    Ok {| host := []; hive := HKCU; key := lit "\Absent" |} /\
  keys_calls {| host := []; hive := HKCU; key := lit "\Absent" |} (Some 1%Z) [] =
    Ok [Cb None (Some []); Cb (Some (Error (lit "process exited with code 1"))) None].
Proof.
  assert (H : Registry (options_of [] HKCU (lit "\Absent")) =
              Ok {| host := []; hive := HKCU; key := lit "\Absent" |})
    by (vm_compute; reflexivity).
  split; [exact H|].
  exact (keys_calls_twice_on_failure (options_of [] HKCU (lit "\Absent"))
           {| host := []; hive := HKCU; key := lit "\Absent" |} (Some 1%Z) [] H).
Defined.

(** X8: whenever [get] hands a record for a text, [values] hands, for the
    same text, a list that starts with this record. *)
Theorem get_is_first_of_values (self : registry) (buffer : str)
  (it : registry_item) :
  get_close self (Some 0%Z) buffer = Ok (Cb None (Some it)) ->
  exists rest,
    values_close self (Some 0%Z) buffer = Ok (Cb None (Some (it :: rest))).
Proof.
  rewrite get_close_records, values_close_eq. cbn [nonzero Z.eqb negb].
  intros H. injection H as H.
  destruct (tl (retained buffer)) as [|l ls]; cbn [hd flat_map] in *.
  - unfold line_records in H. rewrite exec_ITEM_PATTERN_empty in H. discriminate.
  - destruct (line_records self l) as [|it' r]; [discriminate|].
    injection H as ->. eexists. reflexivity.
Qed.

Lemma get_is_first_of_values_witness :
  let self := {| host := []; hive := HKCU; key := lit "\Software" |} in
  let buffer := lit "HKEY_CURRENT_USER\Software" ++ newline ::
                lit "    One    REG_SZ    1" ++ newline ::
                lit "    Two    REG_DWORD    0x2" in
  get_close self (Some 0%Z) buffer =
    Ok (Cb None (Some (RegistryItem [] HKCU (lit "\Software")
                         (lit "One") (lit "REG_SZ") (lit "1")))) /\
  exists rest,
    values_close self (Some 0%Z) buffer =
      Ok (Cb None (Some (RegistryItem [] HKCU (lit "\Software")
                           (lit "One") (lit "REG_SZ") (lit "1") :: rest))).
Proof.
  cbv zeta.
  assert (H : get_close {| host := []; hive := HKCU; key := lit "\Software" |}
                (Some 0%Z)
                (lit "HKEY_CURRENT_USER\Software" ++ newline ::
                 lit "    One    REG_SZ    1" ++ newline ::
                 lit "    Two    REG_DWORD    0x2") =
              Ok (Cb None (Some (RegistryItem [] HKCU (lit "\Software")
                                   (lit "One") (lit "REG_SZ") (lit "1")))))
    by (vm_compute; reflexivity).
  split; [exact H|].
  exact (get_is_first_of_values _ _ _ H).
Defined.

(** ** The synchronous part of the methods *)

(** X9: a Registry with a non-empty host never spawns REG, whatever the
    method and its arguments (the global object having no [host]): without
    a callback the method throws the TypeError of the callback check, [set]
    with a type outside REG_TYPES throws [illegal type specified.], and
    every other call throws the ReferenceError of the [path] getter. *)
Theorem remote_never_spawns (self : registry) (mt : method)
  (cb_is_function : bool) :
  host self <> [] ->
  call None self mt cb_is_function =
    Throw (if negb cb_is_function then must_specify_a_callback
           else match mt with
                | Set_ _ type _ =>
                    if Z.eqb (indexOf REG_TYPES type) (-1)
                    then Error (lit "illegal type specified.")
                    else ReferenceError (lit "host is not defined")
                | _ => ReferenceError (lit "host is not defined")
                end).
Proof.
  intros H. apply path_remote_unbound in H.
  destruct cb_is_function; [|destruct mt; reflexivity].
  destruct mt; cbn [call negb];
    unfold values, keys, get, set, remove, erase, create, delete;
    cbn [negb]; try (rewrite H; reflexivity).
  destruct (Z.eqb (indexOf REG_TYPES type) (-1)); [reflexivity|].
  rewrite H. reflexivity.
Qed.

Lemma remote_never_spawns_witness :
  host {| host := lit "server"; hive := HKLM; key := lit "\Software" |} <> [] /\
  call None {| host := lit "server"; hive := HKLM; key := lit "\Software" |}
    Create true = Throw (ReferenceError (lit "host is not defined")).
Proof.
  assert (H : host {| host := lit "server"; hive := HKLM;
                      key := lit "\Software" |} <> []) by discriminate.
  split; [exact H|].
  exact (remote_never_spawns
           {| host := lit "server"; hive := HKLM; key := lit "\Software" |}
           Create true H).
Defined.

(** X10: for a Registry with an empty host and a call with a callback,
    every method but [set] with a type outside REG_TYPES spawns the command
    REG; the first argument is QUERY for [values], [keys] and [get], ADD for
    [set] and [create], DELETE for [remove], [erase] and [delete]; the
    second argument is the hive followed by the key; every DELETE carries
    [/f] as third argument; the name given to [get], [set] or [remove] is
    passed as one argument, unchanged, unless it is empty. *)
Theorem local_spawns (global_host : option jsval) (self : registry)
  (mt : method) :
  host self = [] ->
  (exists name type value,
      mt = Set_ name type value /\ ~ In type REG_TYPES /\
      call global_host self mt true =
        Throw (Error (lit "illegal type specified."))) \/
  (exists verb rest,
      call global_host self mt true =
        Ok (Spawn (lit "REG") (verb :: (hive self ++ key self) :: rest)) /\
      verb = match mt with
             | Values | Keys | Get _ => lit "QUERY"
             | Set_ _ _ _ | Create => lit "ADD"
             | Remove _ | Erase | Delete => lit "DELETE"
             end /\
      (verb = lit "DELETE" -> exists rest', rest = lit "/f" :: rest') /\
      (forall name, name <> [] ->
         (mt = Get name \/ mt = Remove name \/
          exists type value, mt = Set_ name type value) ->
         exists pre post, rest = pre ++ lit "/v" :: name :: post)).
Proof.
  intros H. pose proof (path_local global_host self H) as Hp.
  destruct mt as [| |name|name type value|name| | |];
    cbn [call]; unfold values, keys, get, set, remove, erase, create, delete;
    cbn [negb]; rewrite ?Hp; cbn [bind].
  - right. eexists. eexists. split; [reflexivity|]. split; [reflexivity|].
    split; [discriminate|].
    intros n _ [E|[E|(t & v & E)]]; discriminate.
  - right. eexists. eexists. split; [reflexivity|]. split; [reflexivity|].
    split; [discriminate|].
    intros n _ [E|[E|(t & v & E)]]; discriminate.
  - right. eexists. eexists. split; [reflexivity|]. split; [reflexivity|].
    split; [discriminate|].
    intros n _ [E|[E|(t & v & E)]]; try discriminate.
    injection E as <-. exists [], []. reflexivity.
  - destruct (Z.eqb (indexOf REG_TYPES type) (-1)) eqn:Et.
    + left. apply indexOf_eqb_not_In in Et.
      exists name, type, value. split; [reflexivity|]. split; [exact Et|].
      reflexivity.
    + right. destruct (str_eqb name []) eqn:En; cbn [app].
      * apply str_eqb_eq in En.
        eexists. eexists. split; [reflexivity|]. split; [reflexivity|].
        split; [discriminate|].
        intros n Hn [E|[E|(t & v & E)]]; try discriminate.
        injection E as <- <- <-. congruence.
      * eexists. eexists. split; [reflexivity|]. split; [reflexivity|].
        split; [discriminate|].
        intros n Hn [E|[E|(t & v & E)]]; try discriminate.
        injection E as <- <- <-.
        exists [], [lit "/t"; type; lit "/d"; value; lit "/f"]. reflexivity.
  - right. destruct name as [|x name]; cbn [truthy].
    + eexists. eexists. split; [reflexivity|]. split; [reflexivity|].
      split; [intros _; eexists; reflexivity|].
      intros n Hn [E|[E|(t & v & E)]]; try discriminate.
      injection E as <-. congruence.
    + eexists. eexists. split; [reflexivity|]. split; [reflexivity|].
      split; [intros _; eexists; reflexivity|].
      intros n Hn [E|[E|(t & v & E)]]; try discriminate.
      injection E as <-. exists [lit "/f"], []. reflexivity.
  - right. eexists. eexists. split; [reflexivity|]. split; [reflexivity|].
    split; [intros _; eexists; reflexivity|].
    intros n _ [E|[E|(t & v & E)]]; discriminate.
  - right. eexists. eexists. split; [reflexivity|]. split; [reflexivity|].
    split; [discriminate|].
    intros n _ [E|[E|(t & v & E)]]; discriminate.
  - right. eexists. eexists. split; [reflexivity|]. split; [reflexivity|].
    split; [intros _; eexists; reflexivity|].
    intros n _ [E|[E|(t & v & E)]]; discriminate.
Qed.

Lemma local_spawns_witness :
  host {| host := []; hive := HKCU; key := lit "\Software\FrEsC" |} = [] /\
  remove None {| host := []; hive := HKCU; key := lit "\Software\FrEsC" |}
    (lit "Sample") true =
    Ok (Spawn (lit "REG")
          [lit "DELETE"; lit "HKCU\Software\FrEsC"; lit "/f"; lit "/v";
           lit "Sample"]) /\
  ((exists name type value,
       Remove (lit "Sample") = Set_ name type value /\ ~ In type REG_TYPES /\
       call None {| host := []; hive := HKCU; key := lit "\Software\FrEsC" |}
         (Remove (lit "Sample")) true =
         Throw (Error (lit "illegal type specified."))) \/
   (exists verb rest,
       call None {| host := []; hive := HKCU; key := lit "\Software\FrEsC" |}
         (Remove (lit "Sample")) true =
         Ok (Spawn (lit "REG")
               (verb :: (HKCU ++ lit "\Software\FrEsC") :: rest)) /\
       verb = lit "DELETE" /\
       (verb = lit "DELETE" -> exists rest', rest = lit "/f" :: rest') /\
       (forall name, name <> [] ->
          (Remove (lit "Sample") = Get name \/
           Remove (lit "Sample") = Remove name \/
           exists type value, Remove (lit "Sample") = Set_ name type value) ->
          exists pre post, rest = pre ++ lit "/v" :: name :: post))).
Proof.
  assert (H : host {| host := []; hive := HKCU;
                      key := lit "\Software\FrEsC" |} = []) by reflexivity.
  split; [exact H|]. split; [vm_compute; reflexivity|].
  exact (local_spawns None
           {| host := []; hive := HKCU; key := lit "\Software\FrEsC" |}
           (Remove (lit "Sample")) H).
Defined.

(** ** The error of a failed run *)

Lemma uint_chars_inj d1 : forall d2,
  uint_chars d1 = uint_chars d2 -> d1 = d2.
Proof.
  induction d1 as [|d1 IH|d1 IH|d1 IH|d1 IH|d1 IH|d1 IH|d1 IH|d1 IH|d1 IH|d1 IH];
    intros [|d2|d2|d2|d2|d2|d2|d2|d2|d2|d2] H; simpl in H;
    try discriminate; try reflexivity;
    injection H as H; f_equal; apply IH; exact H.
Qed.

Lemma uint_chars_digit d x s :
  uint_chars d = x :: s -> (48 <= x <= 57)%N.
Proof. destruct d; simpl; intros H; try discriminate; injection H as <- _; lia. Qed.

Lemma Z_to_str_inj z1 z2 : Z_to_str z1 = Z_to_str z2 -> z1 = z2.
Proof.
  assert (Hz : forall p, uint_chars (Pos.to_uint p) <> lit "0").
  { intros p H. change (lit "0") with (uint_chars (Decimal.D0 Decimal.Nil)) in H.
    apply uint_chars_inj in H. exact (Unsigned.to_uint_nonzero p H). }
  assert (Hm : forall p s, uint_chars (Pos.to_uint p) <> chr "-" :: s).
  { intros p s H. apply uint_chars_digit in H. vm_compute in H.
    destruct H as [H _]. apply H. reflexivity. }
  destruct z1 as [|p1|p1], z2 as [|p2|p2]; cbn [Z_to_str]; intros H;
    try reflexivity;
    try (exfalso; first [exact (Hz _ H) | exact (Hz _ (eq_sym H))
                        | exact (Hm _ _ H) | exact (Hm _ _ (eq_sym H))]);
    try (exfalso; change (lit "0") with [48%N] in H; discriminate).
  - apply uint_chars_inj, Unsigned.to_uint_inj in H. now subst.
  - injection H as H. apply uint_chars_inj, Unsigned.to_uint_inj in H. now subst.
Qed.

(** X11: the five methods that only report success hand a null error
    exactly when REG exits with code 0; on any other exit they hand the
    error [process exited with code] followed by the code, the same error as
    [values], [get] and [keys] hand, and two different exit codes never give
    the same error. *)
Theorem exit_error_identifies_code (code code' : option Z) :
  (set_close code = None <-> code = Some 0%Z) /\
  (set_close code = remove_close code /\ set_close code = erase_close code /\
   set_close code = create_close code /\ set_close code = delete_close code) /\
  (nonzero code = true -> set_close code = Some (exit_error code)) /\
  (exit_error code = exit_error code' -> code = code').
Proof.
  split; [|split; [|split]].
  - unfold set_close. destruct code as [[|p|p]|]; cbn [nonzero Z.eqb negb];
      split; intros H; try discriminate; reflexivity.
  - repeat split.
  - unfold set_close. now intros ->.
  - unfold exit_error. intros H. injection H as H.
    destruct code as [z|], code' as [z'|]; cbn [code_to_str] in H.
    + f_equal. now apply Z_to_str_inj.
    + exfalso. destruct z as [|p|p]; cbn [Z_to_str] in H.
      * discriminate.
      * change (lit "null") with (chr "n" :: lit "ull") in H.
        apply uint_chars_digit in H. vm_compute in H. destruct H as [_ H].
        apply H. reflexivity.
      * discriminate.
    + exfalso. symmetry in H. destruct z' as [|p|p]; cbn [Z_to_str] in H.
      * discriminate.
      * change (lit "null") with (chr "n" :: lit "ull") in H.
        apply uint_chars_digit in H. vm_compute in H. destruct H as [_ H].
        apply H. reflexivity.
      * discriminate.
    + reflexivity.
Qed.

(** ** The records of [values] *)

Lemma drop_while_head p s x t : drop_while p s = x :: t -> p x = false.
Proof.
  induction s as [|y s IH]; simpl; [discriminate|].
  destruct (p y) eqn:E; [exact IH|]. intros H. injection H as <- _. exact E.
Qed.

Lemma drop_while_app_last p a x :
  p x = false -> exists b, drop_while p (a ++ [x]) = b ++ [x].
Proof.
  intros Hx. induction a as [|y a IH]; simpl.
  - rewrite Hx. exists []. reflexivity.
  - destruct (p y); [exact IH|]. exists (y :: a). reflexivity.
Qed.

Lemma drop_while_app_all p a b :
  forallb p a = true -> drop_while p (a ++ b) = drop_while p b.
Proof.
  induction a as [|y a IH]; simpl; [reflexivity|].
  intros H. apply andb_true_iff in H as (-> & H). now apply IH.
Qed.

Lemma forallb_drop_while (q p : char -> bool) s :
  forallb q s = true -> forallb q (drop_while p s) = true.
Proof.
  induction s as [|y s IH]; simpl; [reflexivity|].
  intros H. destruct (p y); [|exact H].
  apply andb_true_iff in H as (_ & H). now apply IH.
Qed.

Lemma forallb_rev_true (q : char -> bool) s :
  forallb q s = true -> forallb q (rev s) = true.
Proof.
  rewrite !forallb_forall. intros H x Hx. apply H. now apply in_rev.
Qed.

Lemma forallb_trim q s : forallb q s = true -> forallb q (trim s) = true.
Proof.
  intros H. unfold trim.
  now apply forallb_rev_true, forallb_drop_while, forallb_rev_true,
    forallb_drop_while.
Qed.

(** A trimmed string starts and ends with a character that is not
    whitespace. *)
Lemma trim_last_not_space s z t :
  rev (trim s) = z :: t -> is_space z = false.
Proof. unfold trim. rewrite rev_involutive. apply drop_while_head. Qed.

Lemma trim_head_not_space s x t : trim s = x :: t -> is_space x = false.
Proof.
  unfold trim. destruct (drop_while is_space s) as [|y a] eqn:E.
  - simpl. discriminate.
  - pose proof (drop_while_head _ _ _ _ E) as Hy. simpl rev at 2.
    destruct (drop_while_app_last is_space (rev a) y Hy) as (b & ->).
    rewrite rev_app_distr. simpl. intros H. injection H as <- _. exact Hy.
Qed.

Lemma trim_stable x t z t' :
  is_space x = false -> rev (x :: t) = z :: t' -> is_space z = false ->
  trim (x :: t) = x :: t.
Proof.
  intros Hx Hr Hz. unfold trim. cbn [drop_while]. rewrite Hx, Hr.
  cbn [drop_while]. rewrite Hz, <- Hr. apply rev_involutive.
Qed.

Lemma trim_prefix_nonempty x t :
  is_space x = false -> exists t', trim (x :: t) = x :: t'.
Proof.
  intros Hx. unfold trim. cbn [drop_while]. rewrite Hx. simpl rev at 2.
  destruct (drop_while_app_last is_space (rev t) x Hx) as (b & ->).
  rewrite rev_app_distr. simpl. eauto.
Qed.

Lemma trim_idempotent s : trim (trim s) = trim s.
Proof.
  destruct (trim s) as [|x t] eqn:E; [reflexivity|].
  pose proof (trim_head_not_space _ _ _ E) as Hx.
  destruct (rev (x :: t)) as [|z t'] eqn:Er.
  - apply (f_equal (@List.length char)) in Er. rewrite length_rev in Er.
    discriminate.
  - apply (trim_stable x t z t' Hx Er).
    apply (trim_last_not_space s z t'). now rewrite E.
Qed.

Lemma retained_line_trimmed buffer l :
  In l (retained buffer) -> l <> [] /\ trim l = l.
Proof.
  unfold retained. intros H. apply filter_In in H as (H & Hne).
  apply in_map_iff in H as (s & <- & _).
  split; [destruct (trim s); [discriminate | discriminate]|].
  apply trim_idempotent.
Qed.

Lemma not_space_dot x : not_space x = true -> dot x = true.
Proof.
  unfold not_space, dot, is_space. intros H.
  apply negb_true_iff in H. apply orb_false_iff in H as (_ & ->). reflexivity.
Qed.

(** The record of a line that is trimmed: its name and its value are not
    empty and carry no whitespace at either end. *)
Lemma line_records_wellformed self line it :
  trim line = line ->
  In it (line_records self line) ->
  item_host it = host self /\ item_hive it = hive self /\
  item_key it = key self /\
  In (item_type it) REG_TYPES /\
  item_name it <> [] /\ trim (item_name it) = item_name it /\
  forallb name_char (item_name it) = true /\
  item_value it <> [] /\ trim (item_value it) = item_value it /\
  forallb dot (item_value it) = true.
Proof.
  intros Ht Hin.
  destruct (line_records_fields self line it Hin) as (n & t & v & E & HtT & ->).
  apply exec_ITEM_PATTERN in E
    as (n' & sp & t' & ws & v' & Emt & El & Hn & Hnc & Hsp & _ & Hws & Hwsc
        & (x & v0 & Ev & Hx & Hv0)).
  injection Emt as <- <- <-. subst v.
  cbn [RegistryItem item_host item_hive item_key item_name item_type item_value].
  split; [reflexivity|]. split; [reflexivity|]. split; [reflexivity|].
  split; [exact HtT|].
  destruct n as [|y n]; [congruence|].
  assert (Hy : is_space y = false).
  { apply (trim_head_not_space line y (n ++ sp :: t ++ ws ++ x :: v0)).
    rewrite Ht, El. reflexivity. }
  destruct (trim_prefix_nonempty y n Hy) as (tn & Etn).
  split; [rewrite Etn; discriminate|].
  split; [apply trim_idempotent|].
  split; [now apply forallb_trim|].
  split; [discriminate|].
  assert (Hxs : is_space x = false) by now apply negb_true_iff in Hx.
  split.
  - destruct (rev (x :: v0)) as [|z t0] eqn:Er.
    + apply (f_equal (@List.length char)) in Er. rewrite length_rev in Er.
      discriminate.
    + apply (trim_stable x v0 z t0 Hxs Er).
      apply (trim_last_not_space line z
               (t0 ++ rev ((y :: n) ++ sp :: t ++ ws))).
      rewrite Ht, El.
      replace ((y :: n) ++ sp :: t ++ ws ++ x :: v0)
        with (((y :: n) ++ sp :: t ++ ws) ++ x :: v0)
        by (rewrite <- !app_assoc; simpl; now rewrite <- !app_assoc).
      rewrite rev_app_distr, Er. reflexivity.
  - cbn [forallb]. rewrite Hv0, (not_space_dot x Hx). reflexivity.
Qed.

(** X12: every record [values] hands carries the host, hive and key of the
    queried Registry and a type of REG_TYPES; its name is not empty, has no
    whitespace at either end and is made of name characters; its value is
    not empty, has no whitespace at either end and no line terminator.  So
    the unnamed default value of a key is never among the records.  There
    are at most as many records as retained lines after the first. *)
Theorem values_records_wellformed (self : registry) (buffer : str)
  (result : list registry_item) :
  values_close self (Some 0%Z) buffer = Ok (Cb None (Some result)) ->
  List.length result <= List.length (retained buffer) - 1 /\
  Forall (fun it =>
            item_host it = host self /\ item_hive it = hive self /\
            item_key it = key self /\
            In (item_type it) REG_TYPES /\
            item_name it <> [] /\ trim (item_name it) = item_name it /\
            forallb name_char (item_name it) = true /\
            item_value it <> [] /\ trim (item_value it) = item_value it /\
            forallb dot (item_value it) = true) result.
Proof.
  rewrite values_close_eq. cbn [nonzero Z.eqb negb]. intros H.
  injection H as <-. split.
  - assert (Hl : List.length (tl (retained buffer)) =
                 List.length (retained buffer) - 1)
      by (destruct (retained buffer); simpl; lia).
    rewrite <- Hl. clear Hl.
    induction (tl (retained buffer)) as [|l ls IH]; [simpl; lia|].
    cbn [flat_map]. rewrite length_app.
    change (List.length (l :: ls)) with (S (List.length ls)).
    assert (List.length (line_records self l) <= 1); [|lia].
    unfold line_records. destruct (exec ITEM_PATTERN l); [|simpl; lia].
    destruct (item_of_match self c); simpl; lia.
  - apply Forall_forall. intros it Hin.
    apply in_flat_map in Hin as (l & Hl & Hin).
    apply (line_records_wellformed self l it); [|exact Hin].
    apply (retained_line_trimmed buffer).
    destruct (retained buffer); [contradiction | now right].
Qed.

Lemma values_records_wellformed_witness :
  let self := {| host := []; hive := HKCU; key := lit "\Software" |} in
  let buffer := lit "HKEY_CURRENT_USER\Software" ++ newline ::
                lit "    (Default)    REG_SZ    x" ++ newline ::
                lit "    Two    REG_DWORD    0x2" in
  let result := [RegistryItem [] HKCU (lit "\Software")
                   (lit "Two") (lit "REG_DWORD") (lit "0x2")] in
  values_close self (Some 0%Z) buffer = Ok (Cb None (Some result)) /\
  List.length result <= List.length (retained buffer) - 1 /\
  Forall (fun it =>
            item_host it = host self /\ item_hive it = hive self /\
            item_key it = key self /\
            In (item_type it) REG_TYPES /\
            item_name it <> [] /\ trim (item_name it) = item_name it /\
            forallb name_char (item_name it) = true /\
            item_value it <> [] /\ trim (item_value it) = item_value it /\
            forallb dot (item_value it) = true) result.
Proof.
  cbv zeta.
  assert (H : values_close {| host := []; hive := HKCU; key := lit "\Software" |}
                (Some 0%Z)
                (lit "HKEY_CURRENT_USER\Software" ++ newline ::
                 lit "    (Default)    REG_SZ    x" ++ newline ::
                 lit "    Two    REG_DWORD    0x2") =
              Ok (Cb None (Some [RegistryItem [] HKCU (lit "\Software")
                                   (lit "Two") (lit "REG_DWORD") (lit "0x2")])))
    by (vm_compute; reflexivity).
  split; [exact H|].
  exact (values_records_wellformed _ _ _ H).
Defined.

(** ** The matcher finds a match when there is one *)

Lemma star_loop_bound_ge r k n : forall pos s c,
  List.length s <= n ->
  star_loop (m r) (groups r) k n pos s c =
    star_loop (m r) (groups r) k (List.length s) pos s c.
Proof.
  induction n as [|n IH]; intros pos s c Hn.
  - destruct s; [reflexivity | simpl in Hn; lia].
  - destruct (Nat.eq_dec (List.length s) (S n)) as [->|Hne]; [reflexivity|].
    rewrite star_loop_bound by lia. apply IH. lia.
Qed.

Lemma star_loop_here mr gs k n pos s c :
  k pos s c <> None -> star_loop mr gs k n pos s c <> None.
Proof.
  intros Hk. destruct n as [|n]; simpl; [exact Hk|].
  destruct (mr _ pos s (clear gs c)); [discriminate | exact Hk].
Qed.

Lemma m_complete r pos s c pos' s' c' :
  matches r pos s c pos' s' c' ->
  forall k, k pos' s' c' <> None -> m r k pos s c <> None.
Proof.
  induction 1 as [pos s c|s c|pos c|p x pos s c Hx
                 |r1 r2 pos s c pos1 s1 c1 pos2 s2 c2 H1 IH1 H2 IH2
                 |r1 r2 pos s c pos' s' c' H1 IH1
                 |r1 r2 pos s c pos' s' c' H1 IH1
                 |r pos s c
                 |r pos s c pos1 s1 c1 pos2 s2 c2 H1 IH1 Hlt H2 IH2
                 |i r pos s c pos' s' c' H1 IH1];
    intros k Hk; cbn [m].
  - exact Hk.
  - exact Hk.
  - exact Hk.
  - rewrite Hx. exact Hk.
  - apply IH1. apply IH2. exact Hk.
  - destruct (m r1 k pos s c) eqn:E; [discriminate|].
    exfalso. exact (IH1 k Hk E).
  - destruct (m r1 k pos s c); [discriminate|]. apply IH1. exact Hk.
  - apply star_loop_here. exact Hk.
  - destruct (matches_consumes _ _ _ _ _ _ _ H1) as (w & -> & ->).
    destruct w as [|x w]; [simpl in Hlt; lia|].
    cbn [List.length app star_loop].
    match goal with
    | |- match ?e with _ => _ end <> None => destruct e eqn:E; [discriminate|]
    end.
    exfalso. revert E. apply IH1.
    replace (Nat.ltb pos (pos + List.length (x :: w))) with true
      by (symmetry; apply Nat.ltb_lt; simpl; lia).
    rewrite star_loop_bound_ge by (rewrite length_app; lia).
    apply (IH2 k Hk).
  - apply IH1. exact Hk.
Qed.

(** The greedy loop over a character class stops at the longest split its
    continuation accepts. *)
Lemma star_cls_no_longer p K : forall rest pos c,
  (forall w2 rest2, w2 <> [] -> rest = w2 ++ rest2 ->
     forallb p w2 = true -> K (pos + List.length w2) rest2 c = None) ->
  star_loop (m (Cls p)) [] K (List.length rest) pos rest c = K pos rest c.
Proof.
  induction rest as [|x rest IH]; intros pos c H; [reflexivity|].
  cbn [List.length star_loop m clear fold_left].
  destruct (p x) eqn:Ex; [|reflexivity].
  replace (Nat.ltb pos (S pos)) with true by (symmetry; apply Nat.ltb_lt; lia).
  rewrite IH.
  - assert (E : K (S pos) rest c = None).
    { replace (S pos) with (pos + List.length [x]) by (simpl; lia).
      apply H; [discriminate | reflexivity|]. simpl. now rewrite Ex. }
    now rewrite E.
  - intros w2 rest2 Hne -> Hw.
    replace (S pos + List.length w2) with (pos + List.length (x :: w2))
      by (simpl; lia).
    apply H; [discriminate | reflexivity|]. simpl. now rewrite Ex.
Qed.

Lemma m_Cls_cons p k pos x s c :
  m (Cls p) k pos (x :: s) c = if p x then k (S pos) s c else None.
Proof. reflexivity. Qed.

Lemma star_cls_longest p K res : forall w1 rest1 pos c,
  forallb p w1 = true ->
  K (pos + List.length w1) rest1 c = Some res ->
  (forall w2 rest2, w2 <> [] -> rest1 = w2 ++ rest2 ->
     forallb p w2 = true ->
     K (pos + List.length w1 + List.length w2) rest2 c = None) ->
  star_loop (m (Cls p)) [] K (List.length (w1 ++ rest1)) pos (w1 ++ rest1) c =
    Some res.
Proof.
  induction w1 as [|x w1 IH]; intros rest1 pos c Hw HK Hlonger.
  - cbn [app]. rewrite star_cls_no_longer.
    + simpl in HK. now rewrite Nat.add_0_r in HK.
    + intros w2 rest2 Hne E Hw2. specialize (Hlonger w2 rest2 Hne E Hw2).
      simpl in Hlonger. now rewrite Nat.add_0_r in Hlonger.
  - cbn [forallb] in Hw. apply andb_true_iff in Hw as (Hx & Hw).
    cbn [List.length app star_loop clear fold_left]. rewrite m_Cls_cons, Hx.
    replace (Nat.ltb pos (S pos)) with true by (symmetry; apply Nat.ltb_lt; lia).
    rewrite (IH rest1 (S pos) c Hw); [reflexivity| |].
    + simpl in HK. now replace (S pos + List.length w1)
        with (pos + S (List.length w1)) by lia.
    + intros w2 rest2 Hne E Hw2. specialize (Hlonger w2 rest2 Hne E Hw2).
      simpl in Hlonger.
      now replace (S pos + List.length w1 + List.length w2)
        with (pos + S (List.length w1) + List.length w2) by lia.
Qed.

(** ** A well-formed value line is decoded as written *)

Lemma REG_TYPES_not_space t :
  In t REG_TYPES -> exists x t', t = x :: t' /\ forallb not_space t = true.
Proof.
  unfold REG_TYPES. intros H.
  repeat (destruct H as [<-|H];
          [eexists; eexists; split; vm_compute; reflexivity|]).
  contradiction.
Qed.

Lemma REG_TYPES_prefix t1 t2 a b :
  In t1 REG_TYPES -> In t2 REG_TYPES -> t1 ++ a = t2 ++ b -> t1 = t2 /\ a = b.
Proof.
  unfold REG_TYPES. intros H1 H2 E.
  repeat (destruct H1 as [<-|H1]; [|]); try contradiction;
    repeat (destruct H2 as [<-|H2]; [|]); try contradiction;
    first [ split; [reflexivity | exact (app_inv_head _ _ _ E)]
          | exfalso; cbv in E; discriminate E ].
Qed.

Lemma span_unique (p : char -> bool) a : forall a' x x' v v',
  forallb p a = true -> forallb p a' = true ->
  p x = false -> p x' = false ->
  a ++ x :: v = a' ++ x' :: v' -> a = a' /\ x :: v = x' :: v'.
Proof.
  induction a as [|y a IH]; intros [|y' a'] x x' v v' Ha Ha' Hx Hx' E;
    simpl in *.
  - auto.
  - injection E as -> _. apply andb_true_iff in Ha' as (Hy & _). congruence.
  - injection E as -> _. apply andb_true_iff in Ha as (Hy & _). congruence.
  - injection E as -> E. apply andb_true_iff in Ha as (_ & Ha).
    apply andb_true_iff in Ha' as (_ & Ha').
    destruct (IH a' x x' v v' Ha Ha' Hx Hx' E) as (-> & Ev). auto.
Qed.

Lemma matches_ITEM_REST pos s c pos' s' c' :
  matches ITEM_REST pos s c pos' s' c' ->
  exists sp t ws x v,
    s = sp :: t ++ ws ++ x :: v /\ s' = [] /\
    pos' = pos + List.length s /\
    is_space sp = true /\ In t REG_TYPES /\
    ws <> [] /\ forallb is_space ws = true /\
    not_space x = true /\ forallb dot v = true /\
    c' = upd 3 (Some (x :: v)) (upd 2 (Some t) c).
Proof.
  unfold ITEM_REST. intros Hm.
  apply matches_Seq in Hm as (p2 & s2 & c2 & Hsp & Hm).
  apply matches_Cls in Hsp as (sp & -> & Hsp & -> & ->).
  apply matches_Seq in Hm as (p3 & s3 & c3 & Hg2 & Hm).
  apply matches_Group in Hg2 as (w2 & c2' & Ht & -> & -> & ->).
  apply matches_Alts_Lit in Ht as (t & Ht & E & _ & ->).
  apply app_inv_tail in E. subst w2.
  apply matches_Seq in Hm as (p4 & s4 & c4 & Hws & Hm).
  apply matches_Plus_Cls in Hws as (ws & -> & Hws & Hwsne & -> & ->).
  apply matches_Seq in Hm as (p5 & s5 & c5 & Hg3 & He).
  apply matches_Group in Hg3 as (w3 & c3' & Hv & -> & -> & ->).
  apply matches_Seq in Hv as (p6 & s6 & c6 & Hx & Hd).
  apply matches_Cls in Hx as (x & E & Hx & -> & ->).
  apply matches_Star_Cls in Hd as (v' & -> & Hv' & _ & ->).
  apply matches_Eol in He as (-> & -> & -> & ->).
  rewrite app_nil_r in E. subst w3.
  exists sp, t, ws, x, v'. rewrite !app_nil_r.
  repeat split; auto.
  simpl; rewrite ?length_app; simpl; rewrite ?length_app; simpl; lia.
Qed.

Lemma matches_Lit_intro w pos s c :
  matches (Lit w) pos (w ++ s) c (pos + List.length w) s c.
Proof.
  revert pos. induction w as [|x w IH]; intros pos; simpl.
  - rewrite Nat.add_0_r. constructor.
  - econstructor.
    + constructor. now apply char_eqb_eq.
    + replace (pos + S (List.length w)) with (S pos + List.length w) by lia.
      apply IH.
Qed.

Lemma matches_Alts_Lit_intro ws w t pos s c :
  In t (ws ++ [w]) ->
  matches (Alts (map Lit ws) (Lit w)) pos (t ++ s) c (pos + List.length t) s c.
Proof.
  induction ws as [|w0 ws IH]; simpl.
  - intros [<-|[]]. apply matches_Lit_intro.
  - intros [<-|H].
    + apply M_AltL, matches_Lit_intro.
    + apply M_AltR, IH, H.
Qed.

Lemma matches_Star_Cls_intro p w : forall pos s c,
  forallb p w = true ->
  matches (Star (Cls p)) pos (w ++ s) c (pos + List.length w) s c.
Proof.
  induction w as [|x w IH]; intros pos s c H; simpl.
  - rewrite Nat.add_0_r. constructor.
  - apply andb_true_iff in H as (Hx & Hw).
    apply (M_StarS (Cls p) pos (x :: w ++ s) c (S pos) (w ++ s) c).
    + cbn [groups clear fold_left]. now constructor.
    + lia.
    + replace (pos + S (List.length w)) with (S pos + List.length w) by lia.
      now apply IH.
Qed.

Lemma matches_ITEM_REST_intro pos sp t ws x v c :
  is_space sp = true -> In t REG_TYPES ->
  ws <> [] -> forallb is_space ws = true ->
  not_space x = true -> forallb dot v = true ->
  exists pos' c',
    matches ITEM_REST pos (sp :: t ++ ws ++ x :: v) c pos' [] c'.
Proof.
  intros Hsp Ht Hne Hws Hx Hv. unfold ITEM_REST.
  destruct ws as [|y ws]; [congruence|].
  cbn [forallb] in Hws. apply andb_true_iff in Hws as (Hy & Hws).
  eexists. eexists.
  eapply M_Seq; [constructor; exact Hsp|].
  eapply M_Seq.
  { apply M_Group.
    apply (matches_Alts_Lit_intro
             [REG_SZ; REG_MULTI_SZ; REG_EXPAND_SZ; REG_DWORD; REG_QWORD;
              REG_BINARY] REG_NONE t (S pos) ((y :: ws) ++ x :: v) c Ht). }
  eapply M_Seq.
  { unfold Plus. eapply M_Seq.
    - cbn [app]. constructor. exact Hy.
    - apply matches_Star_Cls_intro. exact Hws. }
  eapply M_Seq.
  { apply M_Group. eapply M_Seq.
    - constructor. exact Hx.
    - rewrite <- (app_nil_r v) at 1. apply matches_Star_Cls_intro. exact Hv. }
  constructor.
Qed.

Lemma no_type_after_spaces ws2 : forall l x v sp' t' post,
  forallb is_space ws2 = true -> not_space x = true ->
  (forall t, In t REG_TYPES -> ~ occurs t (x :: v)) ->
  is_space sp' = true -> In t' REG_TYPES ->
  ws2 ++ x :: v = l ++ sp' :: t' ++ post -> False.
Proof.
  induction ws2 as [|y ws IH]; intros l x v sp' t' post Hws Hx Hno Hsp Ht E.
  - destruct l as [|z l]; simpl in E.
    + injection E as -> _. apply negb_true_iff in Hx. congruence.
    + injection E as _ ->. apply (Hno t' Ht).
      exists (x :: l ++ [sp']), post. simpl. now rewrite <- app_assoc.
  - cbn [forallb] in Hws. apply andb_true_iff in Hws as (Hy & Hws).
    destruct l as [|z l]; simpl in E.
    + injection E as _ E.
      destruct (REG_TYPES_not_space t' Ht) as (a & t'' & -> & Ha).
      cbn [forallb] in Ha. apply andb_true_iff in Ha as (Ha & _).
      destruct ws as [|y2 ws]; simpl in E.
      * apply (Hno (a :: t'') Ht). exists [], post. exact E.
      * injection E as -> _. cbn [forallb] in Hws.
        apply andb_true_iff in Hws as (Hy2 & _).
        apply negb_true_iff in Ha. congruence.
    + injection E as _ E. exact (IH l x v sp' t' post Hws Hx Hno Hsp Ht E).
Qed.

Lemma no_later_type type ws2 x v pre sp' t' post :
  In type REG_TYPES -> forallb is_space ws2 = true -> not_space x = true ->
  (forall t, In t REG_TYPES -> ~ occurs t (x :: v)) ->
  is_space sp' = true -> In t' REG_TYPES ->
  type ++ ws2 ++ x :: v = pre ++ sp' :: t' ++ post -> False.
Proof.
  intros Htype Hws Hx Hno Hsp Ht E.
  apply app_eq_app in E as (l & [(E1 & E2) | (E1 & E2)]).
  - destruct l as [|z l].
    + exact (no_type_after_spaces ws2 [] x v sp' t' post Hws Hx Hno Hsp Ht
               (eq_sym E2)).
    + simpl in E2. injection E2 as -> _.
      destruct (REG_TYPES_not_space type Htype) as (a & t'' & Ea & Hns).
      rewrite E1 in Hns. rewrite forallb_app in Hns.
      apply andb_true_iff in Hns as (_ & Hns). cbn [forallb] in Hns.
      apply andb_true_iff in Hns as (Hz & _).
      apply negb_true_iff in Hz. congruence.
  - exact (no_type_after_spaces ws2 l x v sp' t' post Hws Hx Hno Hsp Ht E2).
Qed.

Lemma m_Seq_eq r1 r2 k pos s c :
  m (Seq r1 r2) k pos s c = m r1 (m r2 k) pos s c.
Proof. reflexivity. Qed.

Lemma m_Bol_0 k s c : m Bol k 0 s c = k 0 s c.
Proof. reflexivity. Qed.

Lemma m_Group_eq i r k pos s c :
  m (Group i r) k pos s c =
    m r (fun pos' s' c' => k pos' s' (upd i (Some (firstn (pos' - pos) s)) c'))
      pos s c.
Proof. reflexivity. Qed.

Lemma m_Star_eq r k pos s c :
  m (Star r) k pos s c = star_loop (m r) (groups r) k (List.length s) pos s c.
Proof. reflexivity. Qed.

(** The groups of the match of a value line: group 1 runs up to the last
    whitespace before the type, however the name is written. *)
Lemma exec_ITEM_PATTERN_line x0 w sp t ws x v :
  name_char x0 = true -> forallb name_char w = true ->
  is_space sp = true -> In t REG_TYPES ->
  ws <> [] -> forallb is_space ws = true ->
  not_space x = true -> forallb dot v = true ->
  (forall t', In t' REG_TYPES -> ~ occurs t' (x :: v)) ->
  exec ITEM_PATTERN (x0 :: w ++ sp :: t ++ ws ++ x :: v) =
    Some [Some (x0 :: w ++ sp :: t ++ ws ++ x :: v); Some (x0 :: w); Some t;
          Some (x :: v)].
Proof.
  intros Hx0 Hw Hsp Ht Hne Hws Hx Hv Hno.
  assert (Hxs : is_space x = false) by now apply negb_true_iff in Hx.
  unfold exec. cbn [search].
  set (line := x0 :: w ++ sp :: t ++ ws ++ x :: v).
  assert (Hm : match_at ITEM_PATTERN 0 line =
               Some [Some line; Some (x0 :: w); Some t; Some (x :: v)]);
    [|now rewrite Hm].
  unfold match_at. rewrite ngroups_ITEM_PATTERN.
  change ITEM_PATTERN
    with (Seq Bol (Seq (Group 1 (Plus (Cls name_char))) ITEM_REST)).
  rewrite m_Seq_eq, m_Bol_0, m_Seq_eq, m_Group_eq. unfold Plus.
  match goal with
  | |- m _ ?k _ _ _ = _ => set (K := k)
  end.
  rewrite m_Seq_eq. unfold line. rewrite m_Cls_cons, Hx0, m_Star_eq.
  cbn [groups]. fold line.
  apply star_cls_longest; [exact Hw | |]; subst K.
  - cbv beta.
    destruct (matches_ITEM_REST_intro (1 + List.length w) sp t ws x v
                (upd 1 (Some (firstn (1 + List.length w - 0) line))
                   (repeat None 4)) Hsp Ht Hne Hws Hx Hv)
      as (p' & c' & Hex).
    match goal with
    | |- ?lhs = _ => destruct lhs as [res|] eqn:E
    end.
    + apply m_sound in E as (p2 & s2 & c2 & Hm2 & Hk).
      apply matches_ITEM_REST in Hm2
        as (sp2 & t2 & ws2 & x2 & v2 & E2 & -> & -> & Hsp2 & Ht2 & Hne2 & Hws2
            & Hx2 & Hv2 & ->).
      injection E2 as <- E2.
      destruct (REG_TYPES_prefix _ _ _ _ Ht Ht2 E2) as (<- & E3).
      assert (Hx2s : is_space x2 = false) by now apply negb_true_iff in Hx2.
      destruct (span_unique is_space ws ws2 x x2 v v2 Hws Hws2 Hxs Hx2s E3)
        as (<- & E4).
      injection E4 as <- <-.
      injection Hk as <-. cbn [repeat upd].
      replace (firstn (List.length w) (w ++ sp :: t ++ ws ++ x :: v)) with w
        by now rewrite firstn_app, Nat.sub_diag, firstn_all, firstn_O,
             app_nil_r.
      rewrite firstn_all2; [reflexivity|].
      rewrite length_app. simpl. lia.
    + exfalso. revert E. apply (m_complete _ _ _ _ _ _ _ Hex). discriminate.
  - intros w2 rest2 Hne2 E Hw2. cbv beta.
    match goal with
    | |- ?lhs = None => destruct lhs as [res|] eqn:E'; [|reflexivity]
    end.
    exfalso.
    apply m_sound in E' as (p2 & s2 & c2 & Hm2 & _).
    apply matches_ITEM_REST in Hm2
      as (sp2 & t2 & ws2 & x2 & v2 & -> & _ & _ & Hsp2 & Ht2 & _).
    destruct w2 as [|y w2]; [congruence|].
    simpl in E. injection E as _ E.
    exact (no_later_type t ws x v w2 sp2 t2 (ws2 ++ x2 :: v2)
             Ht Hws Hx Hno Hsp2 Ht2 E).
Qed.

Lemma prefixb_app t post : prefixb t (t ++ post) = true.
Proof.
  induction t as [|x t IH]; simpl; [reflexivity|].
  rewrite IH, andb_true_r. now apply char_eqb_eq.
Qed.

Lemma occursb_occurs t s : occurs t s -> occursb t s = true.
Proof.
  intros (pre & post & ->). induction pre as [|y pre IH].
  - simpl app. destruct (t ++ post) eqn:E; simpl;
      rewrite <- ?E, prefixb_app; reflexivity.
  - simpl. rewrite IH. apply orb_true_r.
Qed.

Lemma no_type_name_occurs s t :
  no_type_name s = true -> In t REG_TYPES -> ~ occurs t s.
Proof.
  unfold no_type_name. rewrite forallb_forall. intros H Ht Ho.
  specialize (H t Ht). rewrite (occursb_occurs t s Ho) in H. discriminate.
Qed.

Lemma is_space_name_char c : is_space c = true -> name_char c = true.
Proof.
  unfold name_char, key_char. intros ->. now rewrite !orb_true_r.
Qed.

Lemma trim_app_spaces name ws :
  name <> [] -> trim name = name -> forallb is_space ws = true ->
  trim (name ++ ws) = name.
Proof.
  intros Hne Ht Hws. destruct name as [|x name]; [congruence|].
  pose proof (trim_head_not_space _ _ _ Ht) as Hx.
  unfold trim in *. cbn [app drop_while] in *. rewrite Hx in *.
  change (x :: name ++ ws) with ((x :: name) ++ ws).
  rewrite rev_app_distr, drop_while_app_all by now apply forallb_rev_true.
  exact Ht.
Qed.

Lemma split_no_sep sep s : ~ In sep s -> split sep s = [s].
Proof.
  induction s as [|x s IH]; intros H; simpl; [reflexivity|].
  destruct (char_eqb x sep) eqn:E.
  - apply char_eqb_eq in E. subst. exfalso. apply H. now left.
  - rewrite IH; [reflexivity|]. intros Hin. apply H. now right.
Qed.

Lemma retained_two_lines e raw :
  ~ In newline e -> trim e <> [] -> ~ In newline raw -> trim raw <> [] ->
  retained (e ++ newline :: raw) = [trim e; trim raw].
Proof.
  intros He Hte Hraw Htr. unfold retained.
  rewrite split_prefix, split_no_sep by assumption.
  cbn [map filter]. now rewrite !nonempty_true.
Qed.

(** X13: a value line is decoded as written.  Take a text made of a
    non-blank echoed-path line and one more line which, once trimmed, is a
    name (not empty, of name characters, without whitespace at its ends),
    whitespace, a type of REG_TYPES, whitespace and a value that starts with
    a character other than whitespace, holds no line terminator and in
    which no name of REG_TYPES occurs.  Then [values] hands exactly the
    record of this name, type and value, and [get] hands the same record. *)
Theorem values_decodes_value_line (self : registry) (e raw name ws1 type ws2 : str)
  (x : char) (v : str) :
  ~ In newline e -> trim e <> [] -> ~ In newline raw ->
  trim raw = name ++ ws1 ++ type ++ ws2 ++ x :: v ->
  name <> [] -> forallb name_char name = true -> trim name = name ->
  ws1 <> [] -> forallb is_space ws1 = true ->
  In type REG_TYPES ->
  ws2 <> [] -> forallb is_space ws2 = true ->
  not_space x = true -> forallb dot v = true ->
  no_type_name (x :: v) = true ->
  values_close self (Some 0%Z) (e ++ newline :: raw) =
    Ok (Cb None (Some [RegistryItem (host self) (hive self) (key self)
                         name type (x :: v)])) /\
  get_close self (Some 0%Z) (e ++ newline :: raw) =
    Ok (Cb None (Some (RegistryItem (host self) (hive self) (key self)
                         name type (x :: v)))).
Proof.
  intros He Hte Hraw Etr Hname Hnc Htn Hws1 Hws1c Htype Hws2 Hws2c Hx Hv Hno.
  assert (Hrec : line_records self (trim raw) =
                 [RegistryItem (host self) (hive self) (key self)
                    name type (x :: v)]).
  { rewrite Etr.
    destruct name as [|x0 name']; [congruence|].
    destruct (exists_last Hws1) as (ws1' & sp & ->).
    rewrite forallb_app in Hws1c. apply andb_true_iff in Hws1c as (Hw' & Hsp).
    cbn [forallb] in Hsp, Hnc. apply andb_true_iff in Hsp as (Hsp & _).
    apply andb_true_iff in Hnc as (Hx0 & Hnc').
    assert (Hw : forallb name_char (name' ++ ws1') = true).
    { rewrite forallb_app, Hnc'. simpl.
      rewrite forallb_forall in *. intros c Hc.
      apply is_space_name_char, Hw', Hc. }
    replace ((x0 :: name') ++ (ws1' ++ [sp]) ++ type ++ ws2 ++ x :: v)
      with (x0 :: (name' ++ ws1') ++ sp :: type ++ ws2 ++ x :: v)
      by (simpl; rewrite <- !app_assoc; reflexivity).
    unfold line_records.
    rewrite (exec_ITEM_PATTERN_line x0 (name' ++ ws1') sp type ws2 x v
               Hx0 Hw Hsp Htype Hws2 Hws2c Hx Hv
               (fun t Ht => no_type_name_occurs (x :: v) t Hno Ht)).
    unfold item_of_match, group_trim, group_str, group. cbn [nth bind].
    rewrite (trim_REG_TYPES type Htype).
    change (x0 :: name' ++ ws1') with ((x0 :: name') ++ ws1').
    rewrite (trim_app_spaces (x0 :: name') ws1' Hname Htn Hw'). reflexivity. }
  assert (Hre : retained (e ++ newline :: raw) = [trim e; trim raw]).
  { apply retained_two_lines; auto. rewrite Etr.
    destruct name; [congruence | discriminate]. }
  rewrite values_close_eq, get_close_records, Hre.
  cbn [nonzero Z.eqb negb tl hd flat_map]. rewrite Hrec. split; reflexivity.
Qed.

Lemma values_decodes_value_line_witness :
  let self := {| host := []; hive := HKCU; key := lit "\Software\FrEsC" |} in
  let e := lit "HKEY_CURRENT_USER\Software\FrEsC" ++ [13%N] in
  let raw := lit "    My Value    REG_SZ    C:\Program Files\x.exe" ++ [13%N] in
  values_close self (Some 0%Z) (e ++ newline :: raw) =
    Ok (Cb None (Some [RegistryItem [] HKCU (lit "\Software\FrEsC")
                         (lit "My Value") REG_SZ
                         (lit "C:\Program Files\x.exe")])) /\
  get_close self (Some 0%Z) (e ++ newline :: raw) =
    Ok (Cb None (Some (RegistryItem [] HKCU (lit "\Software\FrEsC")
                         (lit "My Value") REG_SZ
                         (lit "C:\Program Files\x.exe")))).
Proof.
  cbv zeta.
  apply (values_decodes_value_line
           {| host := []; hive := HKCU; key := lit "\Software\FrEsC" |}
           (lit "HKEY_CURRENT_USER\Software\FrEsC" ++ [13%N])
           (lit "    My Value    REG_SZ    C:\Program Files\x.exe" ++ [13%N])
           (lit "My Value") (lit "    ") REG_SZ (lit "    ")
           (chr "C") (lit ":\Program Files\x.exe"));
    try (vm_compute; reflexivity); try (vm_compute; discriminate);
    try (vm_compute; intuition discriminate).
Defined.

(** The hypothesis on the value is needed: group 1 is greedy, so a type
    name inside the value moves the split. *)
Example type_name_in_value :
  line_records {| host := []; hive := HKCU; key := [] |}
    (lit "Name    REG_SZ    say REG_SZ twice") =
    [RegistryItem [] HKCU [] (lit "Name    REG_SZ    say") REG_SZ (lit "twice")].
Proof. vm_compute. reflexivity. Qed.

(** ** A key line is decoded as written *)

Lemma search_first r pos s res :
  match_at r pos s = Some res -> search r pos s = Some res.
Proof. intros H. destruct s; simpl; now rewrite H. Qed.

Lemma exec_PATH_PATTERN_line L rest :
  In L LONG_HIVES -> forallb dot rest = true ->
  exec PATH_PATTERN (L ++ rest) = Some [Some (L ++ rest); Some L; Some rest].
Proof.
  intros HL Hrest.
  assert (Hex : exists mt, exec PATH_PATTERN (L ++ rest) = Some mt).
  { unfold exec.
    destruct (match_at PATH_PATTERN 0 (L ++ rest)) as [mt|] eqn:E.
    - exists mt. now apply search_first.
    - exfalso. revert E. unfold match_at, PATH_PATTERN.
      eapply m_complete; [|discriminate].
      eapply M_Seq; [constructor|].
      eapply M_Seq.
      { apply M_Group.
        apply (matches_Alts_Lit_intro
                 [lit "HKEY_LOCAL_MACHINE"; lit "HKEY_CURRENT_USER";
                  lit "HKEY_CLASSES_ROOT"; lit "HKEY_USERS"]
                 (lit "HKEY_CURRENT_CONFIG") L 0 rest _ HL). }
      eapply M_Seq.
      { apply M_Group. rewrite <- (app_nil_r rest) at 1.
        apply matches_Star_Cls_intro. exact Hrest. }
      constructor. }
  destruct Hex as (mt & E). rewrite E.
  apply exec_PATH_PATTERN in E as (L' & rest' & HL' & E & _ & ->).
  destruct (long_hive_prefix _ _ _ _ HL HL' E) as (<- & <-). reflexivity.
Qed.

(** X14: what [keys] makes of one line.  A line that is one of the five
    long hive names followed by a rest without line terminator gives one
    entry when the rest is not empty and differs from the queried key; the
    entry has the rest as key and the host and hive of the queried
    Registry, whatever hive the line names.  Conversely every entry of a
    line comes from such a line.  So for a Registry the constructor
    returned, a text of that single line gives exactly that entry. *)
Theorem keys_decodes_key_line (options : jsval) (self : registry) (L k : str) :
  Registry options = Ok self ->
  In L LONG_HIVES -> forallb dot k = true ->
  child_entries self (L ++ k) =
    (if (nonempty k && negb (str_eqb k (key self)))%bool
     then [{| host := host self; hive := hive self; key := k |}] else []) /\
  (forall line r, In r (child_entries self line) ->
     exists L', In L' LONG_HIVES /\ line = L' ++ key r /\ key r <> [] /\
                forallb dot (key r) = true) /\
  (k <> [] -> k <> key self -> ~ In newline k -> trim (L ++ k) = L ++ k ->
   keys_end self (L ++ k) =
     Ok (Cb None (Some [{| host := host self; hive := hive self; key := k |}]))).
Proof.
  intros Hself HL Hk. apply Registry_ok_hive in Hself.
  assert (Hone : child_entries self (L ++ k) =
                 (if (nonempty k && negb (str_eqb k (key self)))%bool
                  then [{| host := host self; hive := hive self; key := k |}]
                  else [])).
  { unfold child_entries. rewrite (exec_PATH_PATTERN_line L k HL Hk).
    reflexivity. }
  split; [exact Hone|]. split.
  - intros line r Hr. unfold child_entries in Hr.
    destruct (exec PATH_PATTERN line) as [mt|] eqn:E; [|contradiction].
    apply exec_PATH_PATTERN in E as (L' & rest & HL' & -> & Hd & ->).
    cbn [group nth] in Hr.
    destruct (nonempty rest) eqn:En; [|contradiction].
    destruct (negb (str_eqb rest (key self))); [|contradiction].
    destruct Hr as [<-|[]]. cbn [key].
    exists L'. repeat split; auto. intros ->. discriminate.
  - intros Hne Hneq Hnl Htrim.
    rewrite (keys_end_eq self (L ++ k) Hself). unfold retained.
    rewrite split_no_sep.
    + cbn [map filter]. rewrite Htrim.
      replace (nonempty (L ++ k)) with true
        by (symmetry; apply nonempty_true; destruct L; [exact Hne | discriminate]).
      cbn [flat_map]. rewrite Hone, (nonempty_true k Hne).
      apply str_eqb_neq in Hneq. rewrite Hneq. reflexivity.
    + intros Hin. apply in_app_or in Hin as [Hin|Hin]; [|exact (Hnl Hin)].
      revert Hin. unfold LONG_HIVES in HL.
      repeat (destruct HL as [<-|HL]; [vm_compute; intuition discriminate|]).
      contradiction.
Qed.

Lemma keys_decodes_key_line_witness :
  let self := {| host := []; hive := HKCU; key := lit "\Software" |} in
  Registry (options_of [] HKCU (lit "\Software")) = Ok self /\
  child_entries self (lit "HKEY_USERS" ++ lit "\Software\FrEsC") =
    [{| host := []; hive := HKCU; key := lit "\Software\FrEsC" |}] /\
  child_entries self (lit "HKEY_USERS" ++ lit "\Software") = [].
Proof.
  cbv zeta.
  assert (H : Registry (options_of [] HKCU (lit "\Software")) =
              Ok {| host := []; hive := HKCU; key := lit "\Software" |})
    by (vm_compute; reflexivity).
  assert (HL : In (lit "HKEY_USERS") LONG_HIVES)
    by (right; right; right; left; reflexivity).
  split; [exact H|]. split.
  - exact (proj1 (keys_decodes_key_line _ _ (lit "HKEY_USERS")
                    (lit "\Software\FrEsC") H HL eq_refl)).
  - exact (proj1 (keys_decodes_key_line _ _ (lit "HKEY_USERS")
                    (lit "\Software") H HL eq_refl)).
Defined.

Lemma child_entries_wellformed self line r :
  trim line = line ->
  In r (child_entries self line) ->
  key r <> [] /\ forallb dot (key r) = true /\
  (exists z t, rev (key r) = z :: t /\ is_space z = false) /\
  exists L, In L LONG_HIVES /\ line = L ++ key r.
Proof.
  intros Ht Hr. unfold child_entries in Hr.
  destruct (exec PATH_PATTERN line) as [mt|] eqn:E; [|contradiction].
  apply exec_PATH_PATTERN in E as (L' & rest & HL' & -> & Hd & ->).
  cbn [group nth] in Hr.
  destruct (nonempty rest) eqn:En; [|contradiction].
  destruct (negb (str_eqb rest (key self))); [|contradiction].
  destruct Hr as [<-|[]]. cbn [key].
  destruct rest as [|x t]; [discriminate|].
  split; [discriminate|]. split; [exact Hd|]. split; [|eauto].
  destruct (rev (x :: t)) as [|z t0] eqn:Er.
  - apply (f_equal (@List.length char)) in Er. rewrite length_rev in Er.
    discriminate.
  - exists z, t0. split; [reflexivity|].
    apply (trim_last_not_space (L' ++ x :: t) z (t0 ++ rev L')).
    rewrite Ht, rev_app_distr, Er. reflexivity.
Qed.

(** X15: for a Registry the constructor returned, every entry [keys] hands
    is itself a Registry the constructor returns from its three fields, so
    the methods can be called on it in turn; its key is not empty, holds no
    line terminator, does not end with whitespace, and is the rest of a
    retained line after a long hive name.  There are at most as many
    entries as retained lines. *)
Theorem keys_entries_wellformed (options : jsval) (self : registry)
  (buffer : str) (result : list registry) :
  Registry options = Ok self ->
  keys_end self buffer = Ok (Cb None (Some result)) ->
  List.length result <= List.length (retained buffer) /\
  Forall (fun r =>
            Registry (options_of (host r) (hive r) (key r)) = Ok r /\
            key r <> [] /\ forallb dot (key r) = true /\
            (exists z t, rev (key r) = z :: t /\ is_space z = false) /\
            exists L, In L LONG_HIVES /\ In (L ++ key r) (retained buffer))
    result.
Proof.
  intros Hself. apply Registry_ok_hive in Hself.
  rewrite (keys_end_eq self buffer Hself). intros H. injection H as <-. split.
  - induction (retained buffer) as [|l ls IH]; [simpl; lia|].
    cbn [flat_map]. rewrite length_app.
    change (List.length (l :: ls)) with (S (List.length ls)).
    assert (List.length (child_entries self l) <= 1); [|lia].
    unfold child_entries. destruct (exec PATH_PATTERN l); [|simpl; lia].
    destruct (group 2 c); [|simpl; lia].
    destruct (nonempty s && negb (str_eqb s (key self)))%bool; simpl; lia.
  - apply Forall_forall. intros r Hr.
    apply in_flat_map in Hr as (l & Hl & Hr).
    destruct (child_entries_inherit self l r Hr) as (_ & Hh & Hv).
    destruct (child_entries_wellformed self l r
                (proj2 (retained_line_trimmed buffer l Hl)) Hr)
      as (Hne & Hd & Hz & L & HL & ->).
    split.
    + rewrite Registry_options_of by (rewrite Hv; exact Hself).
      destruct r; reflexivity.
    + repeat split; auto. exists L. auto.
Qed.

Lemma keys_entries_wellformed_witness :
  let self := {| host := []; hive := HKCU; key := lit "\Software" |} in
  let buffer := lit "HKEY_CURRENT_USER\Software" ++ newline ::
                lit "HKEY_CURRENT_USER\Software\7-Zip" in
  let result := [{| host := []; hive := HKCU; key := lit "\Software\7-Zip" |}] in
  Registry (options_of [] HKCU (lit "\Software")) = Ok self /\
  keys_end self buffer = Ok (Cb None (Some result)) /\
  List.length result <= List.length (retained buffer) /\
  Forall (fun r =>
            Registry (options_of (host r) (hive r) (key r)) = Ok r /\
            key r <> [] /\ forallb dot (key r) = true /\
            (exists z t, rev (key r) = z :: t /\ is_space z = false) /\
            exists L, In L LONG_HIVES /\ In (L ++ key r) (retained buffer))
    result.
Proof.
  cbv zeta.
  assert (H : Registry (options_of [] HKCU (lit "\Software")) =
              Ok {| host := []; hive := HKCU; key := lit "\Software" |})
    by (vm_compute; reflexivity).
  assert (Hk : keys_end {| host := []; hive := HKCU; key := lit "\Software" |}
                 (lit "HKEY_CURRENT_USER\Software" ++ newline ::
                  lit "HKEY_CURRENT_USER\Software\7-Zip") =
               Ok (Cb None (Some [{| host := []; hive := HKCU;
                                     key := lit "\Software\7-Zip" |}])))
    by (vm_compute; reflexivity).
  split; [exact H|]. split; [exact Hk|].
  exact (keys_entries_wellformed _ _ _ _ H Hk).
Defined.

Lemma Registry_outcome_witness :
  (exists r, Registry (options_of [] HKCU (lit "\Software")) = Ok r) /\
  ~ In (to_str (js_or (get_hive (options_of [] (lit "HKXX") [])) (JStr HKLM)))
      HIVES.
Proof.
  split.
  - apply (proj2 (proj1 (Registry_outcome (options_of [] HKCU (lit "\Software"))))).
    right. left. reflexivity.
  - apply (proj2 (Registry_outcome (options_of [] (lit "HKXX") []))
             (Error (lit "illegal hive specified."))).
    vm_compute. reflexivity.
Defined.

Lemma exit_error_identifies_code_witness :
  set_close (Some 1%Z) = Some (Error (lit "process exited with code 1")) /\
  (exit_error (Some 1%Z) = exit_error (Some 1%Z) -> Some 1%Z = Some 1%Z).
Proof.
  split.
  - apply (proj1 (proj2 (proj2 (exit_error_identifies_code (Some 1%Z) None)))).
    reflexivity.
  - exact (proj2 (proj2 (proj2 (exit_error_identifies_code (Some 1%Z)
                                  (Some 1%Z))))).
Defined.
